(** * The generated-code pipeline of [utils.py]

    A shallow embedding of the text functions ([extract_code_from_response],
    [clean_generated_code]), of the executor ([execute_generated_code]) and
    of the two service-calling entry points ([generate_chart_code],
    [get_answer]), together with the properties the specification states
    about them.

    Python strings are sequences of Unicode code points: a character is a
    code point in [N] and a string is a [list N].  The string methods the
    source calls ([in], [find], [split], [replace], [strip], [startswith],
    [join]) are written out with CPython's behaviour. *)

From Stdlib Require Import NArith Ascii String List Lia.
From stdpp Require Import base option list gmap.

Set Default Proof Using "Type".

(** ** Python strings *)

Module PyStr.

Abbreviation pystr := (list N).

(** An ASCII literal as a Python string. *)
Definition py (s : string) : pystr := map N_of_ascii (list_ascii_of_string s).

(** The one-character string ['\n']. *)
Definition NL : pystr := [10%N].

(** [str.isspace] on one code point (CPython's [_PyUnicode_IsWhitespace]):
    this is the set of characters that [str.strip()] removes. *)
Definition isspace (c : N) : bool :=
  ((9 <=? c) && (c <=? 13) || (28 <=? c) && (c <=? 32)
   || (c =? 133) || (c =? 160) || (c =? 5760)
   || (8192 <=? c) && (c <=? 8202)
   || (c =? 8232) || (c =? 8233) || (c =? 8239) || (c =? 8287)
   || (c =? 12288))%N.

(** [s.startswith(p)] *)
Fixpoint startswith (s p : pystr) : bool :=
  match p, s with
  | [], _ => true
  | _ :: _, [] => false
  | c :: p', d :: s' => (c =? d)%N && startswith s' p'
  end.

(** [s.find(sub)]: the least index at which [sub] occurs; [None] stands for
    Python's [-1]. *)
Fixpoint find (s sub : pystr) : option nat :=
  if startswith s sub then Some 0
  else match s with
       | [] => None
       | _ :: s' => S <$> find s' sub
       end.

(** [sub in s] *)
Definition contains (sub s : pystr) : bool :=
  match find s sub with Some _ => true | None => false end.

(** [s.split(sep)] for a non-empty [sep] (Python raises [ValueError] on an
    empty one; every call in the source passes a literal).  The occurrences
    are taken leftmost first and do not overlap.  Each cut removes at least
    one character, so [length s] rounds are enough. *)
Fixpoint split_fuel (fuel : nat) (s sep : pystr) : list pystr :=
  match fuel with
  | 0 => [s]
  | S fuel' =>
      match find s sep with
      | None => [s]
      | Some i => take i s :: split_fuel fuel' (drop (i + length sep) s) sep
      end
  end.

Definition split (s sep : pystr) : list pystr := split_fuel (length s) s sep.

(** [sep.join(parts)] *)
Fixpoint join (sep : pystr) (parts : list pystr) : pystr :=
  match parts with
  | [] => []
  | [p] => p
  | p :: rest => p ++ sep ++ join sep rest
  end.

(** [s.replace(old, new)] for a non-empty [old]: leftmost occurrences,
    one pass, the replaced text is not scanned again. *)
Fixpoint replace_fuel (fuel : nat) (s old new : pystr) : pystr :=
  match fuel with
  | 0 => s
  | S fuel' =>
      match find s old with
      | None => s
      | Some i =>
          take i s ++ new ++ replace_fuel fuel' (drop (i + length old) s) old new
      end
  end.

Definition replace (s old new : pystr) : pystr :=
  replace_fuel (length s) s old new.

(** [s.lstrip()], [s.rstrip()], [s.strip()] *)
Fixpoint lstrip (s : pystr) : pystr :=
  match s with
  | [] => []
  | c :: s' => if isspace c then lstrip s' else s
  end.

Fixpoint rstrip (s : pystr) : pystr :=
  match s with
  | [] => []
  | c :: s' =>
      match rstrip s' with
      | [] => if isspace c then [] else [c]
      | r => c :: r
      end
  end.

Definition strip (s : pystr) : pystr := rstrip (lstrip s).

End PyStr.
Import PyStr.

(** ** The text functions of [utils.py] *)

(** The two fence markers of [extract_code_from_response]. *)
Definition fence_tag : pystr := py "```python".
Definition fence : pystr := py "```".

(** [extract_code_from_response].  A list index out of range ([IndexError])
    is [None]. *)
Definition extract_code_from_response (response : pystr) : option pystr :=
  if contains fence_tag response then
    after ← split response fence_tag !! 1;
    block ← split after fence !! 0;
    Some (strip block)
  else if contains fence response then
    block ← split response fence !! 1;
    Some (strip block)
  else Some (strip response).

(** The display-trigger call removed by [clean_generated_code]. *)
Definition show_call : pystr := py "fig.show()".

(** The test of the list comprehension in [clean_generated_code], negated:
    the line is dropped when it holds. *)
Definition import_like (line : pystr) : bool :=
  startswith (strip line) (py "import") || startswith (strip line) (py "from").

(** [clean_generated_code] *)
Definition clean_generated_code (code : pystr) : pystr :=
  let code := replace code show_call [] in
  let lines := split code NL in
  let cleaned_lines := filter (λ line, import_like line = false) lines in
  join NL cleaned_lines.

(** ** Values, exceptions and outcomes *)

(** The dataset.  The functions here only pass it on; the one thing they
    read from it is the text of [list(df.columns)] that the chart prompt
    embeds. *)
Record DataFrame := { columns_text : pystr; frame : N }.

(** A dataset with the columns of the specification's scenarios. *)
Definition sales : DataFrame :=
  {| columns_text := py "['product', 'revenue']"; frame := 0 |}.

(** The Python values that can sit in the execution namespace. *)
Inductive value :=
  | VNone
  | VInt (z : Z)
  | VStr (s : pystr)
  | VDataFrame (df : DataFrame)
  | VModule (name : pystr)
  | VBuiltins
  | VObject (id : N).

(** What [str(e)] does: the exception's own [__str__] runs, so it returns
    a text, raises in its turn (also when it returns something that is not
    a string), or does not come back. *)
Inductive str_result (E : Type) :=
  | StrReturns (text : pystr)
  | StrRaises (e : E)
  | StrDiverges.
Arguments StrReturns {E} text.
Arguments StrRaises {E} e.
Arguments StrDiverges {E}.

#[local] Unset Elimination Schemes.

(** A raised exception: whether it is an instance of [Exception] (what an
    [except Exception] clause catches; [SystemExit], [KeyboardInterrupt]
    and [GeneratorExit] are not) and what [str(e)] does. *)
Inductive exn :=
  Exn { is_Exception : bool; str_result_of : str_result exn }.
#[local] Set Elimination Schemes.


(** [Exception(msg)] *)
Definition Exception (msg : pystr) : exn :=
  {| is_Exception := true; str_result_of := StrReturns msg |}.

(** What a call does: return, raise, or never come back. *)
Inductive outcome (A : Type) :=
  | Returns (a : A)
  | Raises (e : exn)
  | Diverges.
Arguments Returns {A} a.
Arguments Raises {A} e.
Arguments Diverges {A}.

#[global] Instance outcome_ret : MRet outcome := λ A a, Returns a.
#[global] Instance outcome_bind : MBind outcome := λ A B f m,
  match m with
  | Returns a => f a
  | Raises e => Raises e
  | Diverges => Diverges
  end.

(** [str(e)] *)
Definition str (e : exn) : outcome pystr :=
  match str_result_of e with
  | StrReturns text => Returns text
  | StrRaises e' => Raises e'
  | StrDiverges => Diverges
  end.

(** [try: body  except Exception as e: handler(e)] *)
Definition try_except_Exception {A} (body : outcome A)
    (handler : exn → outcome A) : outcome A :=
  match body with
  | Raises e => if is_Exception e then handler e else Raises e
  | _ => body
  end.

(** ** The executor *)

(** The module objects bound at the top of [utils.py]. *)
Definition px : value := VModule (py "plotly.express").
Definition go : value := VModule (py "plotly.graph_objects").
Definition pd : value := VModule (py "pandas").
Definition np : value := VModule (py "numpy").

(** The dict literal of [execute_generated_code]. *)
Definition namespace (df : DataFrame) : gmap pystr value :=
  <[py "df" := VDataFrame df]>
  (<[py "px" := px]>
  (<[py "go" := go]>
  (<[py "pd" := pd]>
  (<[py "np" := np]> ∅)))).


(** What [exec(source, globals)] does to [globals] before it runs the
    source: a dict without the key [__builtins__] gets a reference to the
    built-in module under that key. *)
Definition exec_globals (globals : gmap pystr value) : gmap pystr value :=
  match globals !! py "__builtins__" with
  | Some _ => globals
  | None => <[py "__builtins__" := VBuiltins]> globals
  end.

Section Executor.

(** The meaning of a program text: run on a globals dict it returns the
    dict as the program left it, raises, or does not terminate. *)
Variable run : pystr → gmap pystr value → outcome (gmap pystr value).

(** [exec(source, globals)]; the result is the mutated [globals]. *)
Definition exec (source : pystr) (globals : gmap pystr value)
    : outcome (gmap pystr value) :=
  run source (exec_globals globals).

(** [execute_generated_code] *)
Definition execute_generated_code (code : pystr) (df : DataFrame)
    : outcome value :=
  try_except_Exception
    (namespace ← exec (strip code) (namespace df);
     match namespace !! py "fig" with
     | Some fig => Returns fig
     | None =>
         Raises
           (Exception (py "No figure was created (missing 'fig' variable)"))
     end)
    (λ e,
       detail ← str e;
       Raises
         (Exception
            (py "Code execution failed:" ++ NL ++ detail ++ NL
             ++ py "Generated code:" ++ NL ++ code))).

End Executor.

(** A fragment whose fault cannot be turned into a text: [str] of it
    calls [None]. *)
Definition unprintable : pystr :=
  py "class Unprintable(Exception):" ++ NL ++ py "    __str__ = None" ++ NL
  ++ py "raise Unprintable()".

(** A program meaning that gives eight small fragments, the empty one
    among them, the outcome Python gives them; any other text is taken
    as one that does not parse.  It is the fragment semantics of the
    worked examples below. *)
Definition sample_run (source : pystr) (globals : gmap pystr value)
    : outcome (gmap pystr value) :=
  if bool_decide (source = []) then Returns globals
  else if bool_decide (source = py "fig = 1") then
    Returns (<[py "fig" := VInt 1]> globals)
  else if bool_decide (source = py "fig = None") then
    Returns (<[py "fig" := VNone]> globals)
  else if bool_decide (source = py "fig = df") then
    match globals !! py "df" with
    | Some v => Returns (<[py "fig" := v]> globals)
    | None => Raises (Exception (py "name 'df' is not defined"))
    end
  else if bool_decide (source = py "x = 1") then
    Returns (<[py "x" := VInt 1]> globals)
  else if bool_decide (source = py "1/0") then
    Raises (Exception (py "division by zero"))
  else if bool_decide (source = py "raise SystemExit") then
    Raises {| is_Exception := false; str_result_of := StrReturns [] |}
  else if bool_decide (source = unprintable) then
    Raises
      {| is_Exception := true;
         str_result_of :=
           StrRaises (Exception (py "'NoneType' object is not callable")) |}
  else Raises (Exception (py "invalid syntax (<string>, line 1)")).

(** ** The service-calling entry points *)

(** A request sent to an external service. *)
Inductive call :=
  | LLMInvoke (prompt : pystr)
  | AgentInvoke (input : pystr).

(** A computation that may call the services: it extends the log of the
    requests made so far and has an outcome. *)
Definition io (A : Type) : Type := list call → outcome A * list call.

#[global] Instance io_ret : MRet io := λ A a log, (Returns a, log).
#[global] Instance io_bind : MBind io := λ A B f m log,
  match m log with
  | (Returns a, log') => f a log'
  | (Raises e, log') => (Raises e, log')
  | (Diverges, log') => (Diverges, log')
  end.

(** A step that calls no service. *)
Definition local {A} (o : outcome A) : io A := λ log, (o, log).

(** [parts[i]] inside such a computation: [IndexError] when out of range. *)
Definition index_or_raise {A} (o : option A) : io A :=
  match o with
  | Some a => mret a
  | None => λ log, (Raises (Exception (py "list index out of range")), log)
  end.

Section Services.

(** The external collaborators.  [chat_groq] is building the client,
    [ChatGroq(temperature=0, model_name=...)], and [create_sql_agent]
    building the agent around it: both send nothing and may raise (no
    API key, say).  [llm_invoke prompt] is [llm.invoke(prompt).content]
    and [agent_invoke q] is [agent_executor.invoke({"input": q})]: each
    is one request to the service, answered or failed. *)
Variable chat_groq : outcome ().
Variable create_sql_agent : outcome ().
Variable llm_invoke : pystr → outcome pystr.
Variable agent_invoke : pystr → outcome (gmap pystr pystr).

Definition call_llm (prompt : pystr) : io pystr :=
  λ log, (llm_invoke prompt, log ++ [LLMInvoke prompt]).

Definition call_agent (input : pystr) : io (gmap pystr pystr) :=
  λ log, (agent_invoke input, log ++ [AgentInvoke input]).

(** The prompt text built in [generate_chart_code]. *)
Definition chart_prompt (query : pystr) (df : DataFrame) : pystr :=
  py "Generate only executable Python code for a plotly chart. "
  ++ py "Task: " ++ query ++ NL
  ++ py "Available columns: " ++ columns_text df ++ NL
  ++ py "Requirements:" ++ NL
  ++ py "1. Only use plotly.express (px) or plotly.graph_objects (go)" ++ NL
  ++ py "2. Name the figure variable 'fig'" ++ NL
  ++ py "3. Don't include imports or fig.show()" ++ NL
  ++ py "4. Use 'df' as the DataFrame name" ++ NL
  ++ py "Example format:" ++ NL
  ++ py "filtered_df = df.sort_values('column', ascending=False).head(10)"
  ++ NL
  ++ py "fig = px.bar(filtered_df, x='column1', y='column2', title='Chart Title')".

(** [generate_chart_code] *)
Definition generate_chart_code (query : pystr) (df : DataFrame) : io pystr :=
  llm ← local chat_groq;
  content ← call_llm (chart_prompt query df);
  code ← index_or_raise (extract_code_from_response content);
  mret (clean_generated_code code).

(** The question sent by [get_answer]. *)
Definition contextualized_question (question table_name : pystr) : pystr :=
  py "Using the " ++ table_name ++ py " table, " ++ question.

(** [get_answer]; the database handle only travels to the agent. *)
Definition get_answer (question table_name : pystr) : io pystr :=
  llm ← local chat_groq;
  agent_executor ← local create_sql_agent;
  response ← call_agent (contextualized_question question table_name);
  mret (default (py "Sorry, I couldn't find an answer to your question.")
          (response !! py "output")).

End Services.

(** ** Notions the specification uses *)

(** [sub] occurs in [s]. *)
Definition occurs (sub s : pystr) : Prop := ∃ pre post, s = pre ++ sub ++ post.

(** [s] is [pre], then the first occurrence of [sub], then [post]. *)
Definition first_occurrence (sub s pre post : pystr) : Prop :=
  s = pre ++ sub ++ post ∧
  ∀ pre' post', s = pre' ++ sub ++ post' → length pre ≤ length pre'.

(** The character [c] does not appear in [s]. *)
Definition free_of (c : N) (s : pystr) : Prop := c ∉ s.

(** ** The session state and its callbacks *)

(** [st.session_state] as [main] initialises it.  [None] is Python's
    [None]; for [reuse_qa] and [reuse_chart], which [main] does not
    initialise, it is the attribute being absent. *)
Record session := {
  active_tab : option pystr;
  qa_feedback : gmap pystr pystr;
  chart_feedback : gmap pystr pystr;
  prompt_history : list (pystr * pystr);
  data_preview : option DataFrame;
  qa_answer : option pystr;
  chart : value;
  prompt_generator : option pystr;
  feedback_history : list pystr;
  reuse_qa : option pystr;
  reuse_chart : option pystr
}.

(** The state after the initialisation at the top of [main] in a new
    session. *)
Definition new_session : session :=
  {| active_tab := None; qa_feedback := ∅; chart_feedback := ∅;
     prompt_history := []; data_preview := None; qa_answer := None;
     chart := VNone; prompt_generator := None; feedback_history := [];
     reuse_qa := None; reuse_chart := None |}.

(** [handle_reuse_prompt] *)
Definition handle_reuse_prompt (prompt_type prompt_text : pystr)
    (st : session) : session :=
  if bool_decide (prompt_type = py "Q&A") then
    {| active_tab := Some (py "Q&A");
       qa_feedback := qa_feedback st; chart_feedback := chart_feedback st;
       prompt_history := prompt_history st; data_preview := data_preview st;
       qa_answer := qa_answer st; chart := chart st;
       prompt_generator := prompt_generator st;
       feedback_history := feedback_history st;
       reuse_qa := Some prompt_text; reuse_chart := reuse_chart st |}
  else
    {| active_tab := Some (py "Charts");
       qa_feedback := qa_feedback st; chart_feedback := chart_feedback st;
       prompt_history := prompt_history st; data_preview := data_preview st;
       qa_answer := qa_answer st; chart := chart st;
       prompt_generator := prompt_generator st;
       feedback_history := feedback_history st;
       reuse_qa := reuse_qa st; reuse_chart := Some prompt_text |}.

(** [handle_feedback] *)
Definition handle_feedback (feedback_type key text feedback_value : pystr)
    (st : session) : session :=
  if bool_decide (feedback_type = py "qa") then
    match qa_feedback st !! key with
    | Some _ => st
    | None =>
        {| active_tab := active_tab st;
           qa_feedback := <[key := feedback_value]> (qa_feedback st);
           chart_feedback := chart_feedback st;
           prompt_history := prompt_history st; data_preview := data_preview st;
           qa_answer := qa_answer st; chart := chart st;
           prompt_generator := prompt_generator st;
           feedback_history :=
             feedback_history st
             ++ [py "Q&A Feedback: " ++ feedback_value
                 ++ py " for question '" ++ text ++ py "'"];
           reuse_qa := reuse_qa st; reuse_chart := reuse_chart st |}
    end
  else
    match chart_feedback st !! key with
    | Some _ => st
    | None =>
        {| active_tab := active_tab st;
           qa_feedback := qa_feedback st;
           chart_feedback := <[key := feedback_value]> (chart_feedback st);
           prompt_history := prompt_history st; data_preview := data_preview st;
           qa_answer := qa_answer st; chart := chart st;
           prompt_generator := prompt_generator st;
           feedback_history :=
             feedback_history st
             ++ [py "Chart Feedback: " ++ feedback_value
                 ++ py " for query '" ++ text ++ py "'"];
           reuse_qa := reuse_qa st; reuse_chart := reuse_chart st |}
    end.

(** One click on a feedback button: the arguments of the callback. *)
Record feedback_click := {
  click_type : pystr; click_key : pystr; click_text : pystr;
  click_value : pystr
}.

(** A run of feedback clicks, oldest first. *)
Definition handle_feedbacks (clicks : list feedback_click) (st : session)
    : session :=
  foldl (λ st c,
           handle_feedback (click_type c) (click_key c) (click_text c)
             (click_value c) st)
    st clicks.

(** ** The submit branches of [main] *)

(** [if text not in [x[1] for x in prompt_history]: prompt_history.append((kind, text))] *)
Definition record_prompt (kind text : pystr) (st : session) : session :=
  if bool_decide (text ∈ (snd <$> prompt_history st)) then st
  else
    {| active_tab := active_tab st;
       qa_feedback := qa_feedback st; chart_feedback := chart_feedback st;
       prompt_history := prompt_history st ++ [(kind, text)];
       data_preview := data_preview st;
       qa_answer := qa_answer st; chart := chart st;
       prompt_generator := prompt_generator st;
       feedback_history := feedback_history st;
       reuse_qa := reuse_qa st; reuse_chart := reuse_chart st |}.

(** [st.session_state.chart = fig] *)
Definition store_chart (fig : value) (st : session) : session :=
  {| active_tab := active_tab st;
     qa_feedback := qa_feedback st; chart_feedback := chart_feedback st;
     prompt_history := prompt_history st; data_preview := data_preview st;
     qa_answer := qa_answer st; chart := fig;
     prompt_generator := prompt_generator st;
     feedback_history := feedback_history st;
     reuse_qa := reuse_qa st; reuse_chart := reuse_chart st |}.

(** [st.session_state.qa_answer = answer] *)
Definition store_answer (answer : pystr) (st : session) : session :=
  {| active_tab := active_tab st;
     qa_feedback := qa_feedback st; chart_feedback := chart_feedback st;
     prompt_history := prompt_history st; data_preview := data_preview st;
     qa_answer := Some answer; chart := chart st;
     prompt_generator := prompt_generator st;
     feedback_history := feedback_history st;
     reuse_qa := reuse_qa st; reuse_chart := reuse_chart st |}.

(** [if 'reuse_chart' in st.session_state: del st.session_state.reuse_chart] *)
Definition clear_reuse_chart (st : session) : session :=
  {| active_tab := active_tab st;
     qa_feedback := qa_feedback st; chart_feedback := chart_feedback st;
     prompt_history := prompt_history st; data_preview := data_preview st;
     qa_answer := qa_answer st; chart := chart st;
     prompt_generator := prompt_generator st;
     feedback_history := feedback_history st;
     reuse_qa := reuse_qa st; reuse_chart := None |}.

(** [if 'reuse_qa' in st.session_state: del st.session_state.reuse_qa] *)
Definition clear_reuse_qa (st : session) : session :=
  {| active_tab := active_tab st;
     qa_feedback := qa_feedback st; chart_feedback := chart_feedback st;
     prompt_history := prompt_history st; data_preview := data_preview st;
     qa_answer := qa_answer st; chart := chart st;
     prompt_generator := prompt_generator st;
     feedback_history := feedback_history st;
     reuse_qa := None; reuse_chart := reuse_chart st |}.

(** What one of these branches leaves behind: how it ended, the session
    state, the requests sent so far and the messages given to
    [st.error]. *)
Record rerun := {
  ended : outcome ();
  state : session;
  requests : list call;
  errors : list pystr
}.

Section Main.

Variable chat_groq : outcome ().
Variable create_sql_agent : outcome ().
Variable llm_invoke : pystr → outcome pystr.
Variable agent_invoke : pystr → outcome (gmap pystr pystr).
Variable run : pystr → gmap pystr value → outcome (gmap pystr value).

(** The branch [if submit_chart and chart_query:] of the chart tab. *)
Definition chart_submit (submit_chart : bool) (chart_query : pystr)
    (df : DataFrame) (st : session) (log : list call) : rerun :=
  if submit_chart && bool_decide (chart_query ≠ []) then
    let st := record_prompt (py "Chart") chart_query st in
    let generated :=
      generate_chart_code chat_groq llm_invoke chart_query df log in
    let attempt :=
      try_except_Exception
        (chart_code ← generated.1;
         fig ← execute_generated_code run chart_code df;
         Returns (store_chart fig st, []))
        (λ e,
           detail ← str e;
           Returns
             (st,
              [py "An error occurred while generating the chart: "
               ++ detail])) in
    match attempt with
    | Returns (st, shown) =>
        {| ended := Returns (); state := clear_reuse_chart st;
           requests := generated.2; errors := shown |}
    | Raises e =>
        {| ended := Raises e; state := st; requests := generated.2;
           errors := [] |}
    | Diverges =>
        {| ended := Diverges; state := st; requests := generated.2;
           errors := [] |}
    end
  else {| ended := Returns (); state := st; requests := log; errors := [] |}.

(** The branch [if submit_question and question:] of the Q&A tab; the
    table name is the one [main] fixes. *)
Definition question_submit (submit_question : bool) (question : pystr)
    (st : session) (log : list call) : rerun :=
  if submit_question && bool_decide (question ≠ []) then
    let st := record_prompt (py "Q&A") question st in
    let answered :=
      get_answer chat_groq create_sql_agent agent_invoke question
        (py "current_data") log in
    let attempt :=
      try_except_Exception
        (answer ← answered.1; Returns (store_answer answer st, []))
        (λ e,
           detail ← str e;
           Returns (st, [py "An error occurred: " ++ detail])) in
    match attempt with
    | Returns (st, shown) =>
        {| ended := Returns (); state := clear_reuse_qa st;
           requests := answered.2; errors := shown |}
    | Raises e =>
        {| ended := Raises e; state := st; requests := answered.2;
           errors := [] |}
    | Diverges =>
        {| ended := Diverges; state := st; requests := answered.2;
           errors := [] |}
    end
  else {| ended := Returns (); state := st; requests := log; errors := [] |}.

End Main.

(** * Facts about the string methods *)

Section StringFacts.
Implicit Types s p sub sep old new pre post : pystr.

Lemma startswith_prefix s p : startswith s p = true ↔ p `prefix_of` s.
Proof.
  revert s; induction p as [|c p IH]; intros [|d s]; simpl.
  - split; [intros _; apply prefix_nil | done].
  - split; [intros _; apply prefix_nil | done].
  - split; [done | intros H; by apply prefix_nil_not in H].
  - rewrite andb_true_iff, N.eqb_eq, IH. split.
    + intros [-> H]. by apply prefix_cons.
    + intros H. split; [eapply prefix_cons_inv_1 | eapply prefix_cons_inv_2]; done.
Qed.

Lemma startswith_false s p : startswith s p = false ↔ ¬ p `prefix_of` s.
Proof. rewrite <-startswith_prefix. by destruct (startswith s p). Qed.

Lemma startswith_app s p : startswith (p ++ s) p = true.
Proof. apply startswith_prefix. by exists s. Qed.

(** A prefix that does not contain [c] cannot reach past a [c]. *)
Lemma startswith_app_char a b c p :
  c ∉ p → startswith (a ++ c :: b) p = startswith a p.
Proof.
  revert a; induction p as [|x p IH]; intros a Hc; [by destruct a|].
  apply not_elem_of_cons in Hc as [Hx Hp].
  destruct a as [|y a]; simpl.
  - destruct (N.eqb_spec x c); [congruence | done].
  - by rewrite IH.
Qed.

Lemma find_nil sub : sub ≠ [] → find [] sub = None.
Proof. by destruct sub. Qed.

(** [find] returns the least position at which [sub] occurs. *)
Lemma find_Some s sub i :
  find s sub = Some i ↔
  sub `prefix_of` drop i s ∧ ∀ j, j < i → ¬ sub `prefix_of` drop j s.
Proof.
  revert i; induction s as [|c s IH]; intros i.
  - cbn [find]. destruct (startswith [] sub) eqn:E.
    + apply startswith_prefix in E. split.
      * intros [= <-]. split; [done | lia].
      * intros [_ Hmin]. destruct i; [done|]. destruct (Hmin 0); [lia | done].
    + apply startswith_false in E. split; [done|].
      intros [H _]. by rewrite drop_nil in H.
  - cbn [find]. destruct (startswith (c :: s) sub) eqn:E.
    + apply startswith_prefix in E. split.
      * intros [= <-]. split; [done | lia].
      * intros [_ Hmin]. destruct i; [done|]. destruct (Hmin 0); [lia | done].
    + apply startswith_false in E. rewrite fmap_Some. split.
      * intros (i' & Hi' & ->). apply IH in Hi' as [Hocc Hmin].
        split; [done|]. intros [|j] Hj; [done|]. apply Hmin. lia.
      * intros [Hocc Hmin]. destruct i as [|i']; [done|].
        exists i'. split; [|done]. apply IH. split; [done|].
        intros j Hj. apply (Hmin (S j)). lia.
Qed.

Lemma find_None s sub : find s sub = None ↔ ∀ j, ¬ sub `prefix_of` drop j s.
Proof.
  induction s as [|c s IH].
  - cbn [find]. destruct (startswith [] sub) eqn:E.
    + apply startswith_prefix in E. split; [done|]. intros H. by destruct (H 0).
    + apply startswith_false in E. split; [|done].
      intros _ j. by rewrite drop_nil.
  - cbn [find]. destruct (startswith (c :: s) sub) eqn:E.
    + apply startswith_prefix in E. split; [done|]. intros H. by destruct (H 0).
    + apply startswith_false in E. rewrite fmap_None, IH. split.
      * intros H [|j]; [done | apply H].
      * intros H j. apply (H (S j)).
Qed.

(** An occurrence at position [j], as a decomposition of [s]. *)
Lemma prefix_drop_app s sub j :
  sub `prefix_of` drop j s → j ≤ length s →
  s = take j s ++ sub ++ drop (j + length sub) s.
Proof.
  intros [k Hk] Hj. rewrite <-(take_drop j s) at 1. f_equal.
  rewrite <-drop_drop, Hk. by rewrite drop_app_length.
Qed.

Lemma prefix_drop_of_app pre sub post :
  sub `prefix_of` drop (length pre) (pre ++ sub ++ post).
Proof. rewrite drop_app_length. by exists post. Qed.

Lemma prefix_drop_bound s sub j :
  sub ≠ [] → sub `prefix_of` drop j s → j + length sub ≤ length s.
Proof.
  intros Hne H. apply prefix_length in H. rewrite length_drop in H.
  destruct sub; [done|]. simpl in *. lia.
Qed.

Lemma find_Some_bound s sub i :
  sub ≠ [] → find s sub = Some i → i + length sub ≤ length s.
Proof. intros Hne [H _]%find_Some. by apply prefix_drop_bound. Qed.

Lemma contains_occurs sub s : contains sub s = true ↔ occurs sub s.
Proof.
  unfold contains, occurs. destruct (find s sub) as [i|] eqn:E.
  - split; [intros _ | done]. apply find_Some in E as [H Hmin].
    destruct (decide (i ≤ length s)) as [Hi|Hi].
    + eauto using prefix_drop_app.
    + rewrite drop_ge in H by lia. destruct sub; [|by apply prefix_nil_not in H].
      exists s, []. by rewrite app_nil_r.
  - split; [done|]. intros (pre & post & ->).
    rewrite find_None in E. destruct (E (length pre)). apply prefix_drop_of_app.
Qed.

Lemma contains_false sub s : contains sub s = false ↔ ¬ occurs sub s.
Proof. rewrite <-contains_occurs. by destruct (contains sub s). Qed.

Lemma find_None_occurs s sub : find s sub = None ↔ ¬ occurs sub s.
Proof.
  rewrite <-contains_false. unfold contains. by destruct (find s sub).
Qed.

(** [find] and the first occurrence are the same thing. *)
Lemma find_first_occurrence sub s pre post :
  first_occurrence sub s pre post ↔
  find s sub = Some (length pre) ∧ s = pre ++ sub ++ post.
Proof.
  split.
  - intros [-> Hmin]. split; [|done]. apply find_Some. split.
    + apply prefix_drop_of_app.
    + intros j Hj H.
      assert (j ≤ length (pre ++ sub ++ post)) by (rewrite length_app; lia).
      apply prefix_drop_app in H; [|done].
      apply Hmin in H. rewrite length_take in H. lia.
  - intros [Hf ->]. split; [done|]. intros pre' post' Heq.
    apply find_Some in Hf as [_ Hmin].
    destruct (decide (length pre' < length pre)) as [Hlt|]; [|lia].
    destruct (Hmin _ Hlt). rewrite Heq. apply prefix_drop_of_app.
Qed.

Lemma find_Some_first_occurrence s sub i :
  sub ≠ [] → find s sub = Some i →
  first_occurrence sub s (take i s) (drop (i + length sub) s).
Proof.
  intros Hne Hf. pose proof (find_Some_bound _ _ _ Hne Hf) as Hb.
  apply find_first_occurrence. rewrite length_take_le by lia. split; [done|].
  apply find_Some in Hf as [H _]. apply prefix_drop_app; [done | lia].
Qed.


(** *** Unfolding [split] and [replace] *)

Lemma split_fuel_enough sep n m s :
  sep ≠ [] → length s ≤ n → length s ≤ m →
  split_fuel n s sep = split_fuel m s sep.
Proof.
  intros Hne. revert m s; induction n as [|n IH]; intros [|m] s Hn Hm; simpl.
  - done.
  - destruct s; [|simpl in *; lia]. by rewrite find_nil.
  - destruct s; [|simpl in *; lia]. by rewrite find_nil.
  - destruct (find s sep) as [i|] eqn:E; [|done]. f_equal.
    apply find_Some_bound in E; [|done].
    assert (0 < length sep) by (destruct sep; [done | simpl; lia]).
    apply IH; rewrite length_drop; lia.
Qed.

Lemma split_unfold s sep :
  sep ≠ [] →
  split s sep =
  match find s sep with
  | None => [s]
  | Some i => take i s :: split (drop (i + length sep) s) sep
  end.
Proof.
  intros Hne. unfold split. destruct s as [|c s].
  - by rewrite find_nil.
  - cbn [length split_fuel]. destruct (find (c :: s) sep) as [i|] eqn:E; [|done].
    f_equal. apply find_Some_bound in E; [|done].
    assert (0 < length sep) by (destruct sep; [done | simpl; lia]).
    apply split_fuel_enough; [done | |done].
    rewrite length_drop. simpl in *. lia.
Qed.

Lemma replace_fuel_enough old new n m s :
  old ≠ [] → length s ≤ n → length s ≤ m →
  replace_fuel n s old new = replace_fuel m s old new.
Proof.
  intros Hne. revert m s; induction n as [|n IH]; intros [|m] s Hn Hm; simpl.
  - done.
  - destruct s; [|simpl in *; lia]. by rewrite find_nil.
  - destruct s; [|simpl in *; lia]. by rewrite find_nil.
  - destruct (find s old) as [i|] eqn:E; [|done]. do 2 f_equal.
    apply find_Some_bound in E; [|done].
    assert (0 < length old) by (destruct old; [done | simpl; lia]).
    apply IH; rewrite length_drop; lia.
Qed.

Lemma replace_unfold s old new :
  old ≠ [] →
  replace s old new =
  match find s old with
  | None => s
  | Some i => take i s ++ new ++ replace (drop (i + length old) s) old new
  end.
Proof.
  intros Hne. unfold replace. destruct s as [|c s].
  - by rewrite find_nil.
  - cbn [length replace_fuel]. destruct (find (c :: s) old) as [i|] eqn:E; [|done].
    do 2 f_equal. apply find_Some_bound in E; [|done].
    assert (0 < length old) by (destruct old; [done | simpl; lia]).
    apply replace_fuel_enough; [done | |done].
    rewrite length_drop. simpl in *. lia.
Qed.

(** Induction along the cuts that [split] and [replace] make. *)
Lemma cut_ind sep (Hne : sep ≠ []) (P : pystr → Prop) :
  (∀ s, find s sep = None → P s) →
  (∀ s i, find s sep = Some i → P (drop (i + length sep) s) → P s) →
  ∀ s, P s.
Proof.
  intros Hnone Hsome s.
  remember (length s) as n eqn:Hn. revert s Hn.
  induction n as [n IH] using lt_wf_ind. intros s ->.
  destruct (find s sep) as [i|] eqn:E; [|by apply Hnone].
  apply (Hsome s i); [done|].
  apply find_Some_bound in E; [|done].
  assert (0 < length sep) by (destruct sep; [done | simpl; lia]).
  apply (IH (length (drop (i + length sep) s))); [|done].
  rewrite length_drop. lia.
Qed.

Lemma split_nonempty s sep : split s sep ≠ [].
Proof. unfold split. by destruct (length s); simpl; [|destruct (find s sep)]. Qed.

Lemma join_cons sep p parts :
  parts ≠ [] → join sep (p :: parts) = p ++ sep ++ join sep parts.
Proof. by destruct parts. Qed.

(** [sep.join(s.split(sep)) == s] *)
Lemma join_split s sep : sep ≠ [] → join sep (split s sep) = s.
Proof.
  intros Hne. induction s as [s E|s i E IH] using (cut_ind sep Hne);
    rewrite split_unfold, E by done; [done|].
  rewrite join_cons, IH by apply split_nonempty.
  symmetry. apply find_Some_first_occurrence in E as [E _]; done.
Qed.

(** [s.replace(old, new) == new.join(s.split(old))] *)
Lemma replace_join_split s old new :
  old ≠ [] → replace s old new = join new (split s old).
Proof.
  intros Hne. induction s as [s E|s i E IH] using (cut_ind old Hne);
    rewrite replace_unfold, split_unfold, E by done; [done|].
  by rewrite join_cons, IH by apply split_nonempty.
Qed.

(** No piece of a split contains the separator. *)
Lemma occurs_take_find s sub i :
  sub ≠ [] → find s sub = Some i → ¬ occurs sub (take i s).
Proof.
  intros Hne E (pre & post & Heq).
  pose proof (find_Some_bound _ _ _ Hne E) as Hb.
  apply find_Some in E as [_ Hmin].
  assert (length (take i s) = i) as Hlen by (rewrite length_take; lia).
  rewrite Heq, !length_app in Hlen.
  assert (0 < length sub) by (destruct sub; [done | simpl; lia]).
  apply (Hmin (length pre)); [lia|].
  rewrite <-(take_drop i s), Heq, <-!app_assoc.
  rewrite drop_app_length. by eexists.
Qed.

Lemma split_pieces_free s sep p :
  sep ≠ [] → p ∈ split s sep → ¬ occurs sep p.
Proof.
  intros Hne. induction s as [s E|s i E IH] using (cut_ind sep Hne);
    rewrite split_unfold, E by done.
  - intros ->%list_elem_of_singleton. by apply find_None_occurs.
  - intros [->|Hp]%elem_of_cons; [by apply occurs_take_find | by apply IH].
Qed.


(** *** Occurrences read off position by position *)

Lemma prefix_lookup p s :
  p `prefix_of` s ↔ ∀ k, k < length p → s !! k = p !! k.
Proof.
  revert s; induction p as [|c p IH]; intros s.
  - split; [simpl; lia | intros _; apply prefix_nil].
  - destruct s as [|d s].
    + split; [by intros ?%prefix_nil_not|].
      intros H. specialize (H 0). simpl in H. discriminate H. lia.
    + split.
      * intros H [|k] Hk; simpl.
        -- f_equal. symmetry. by eapply prefix_cons_inv_1.
        -- apply IH; [by eapply prefix_cons_inv_2 | simpl in Hk; lia].
      * intros H. assert (d = c) as ->.
        { specialize (H 0). simpl in H. injection H; [done | lia]. }
        apply prefix_cons, IH. intros k Hk. apply (H (S k)). simpl. lia.
Qed.

Lemma prefix_drop_take s sub j k :
  sub ≠ [] →
  sub `prefix_of` drop k (take j s) ↔
  sub `prefix_of` drop k s ∧ k + length sub ≤ j.
Proof.
  intros Hne.
  assert (0 < length sub) as Hpos by (destruct sub; [done | simpl; lia]).
  split.
  - intros H. pose proof (prefix_drop_bound _ _ _ Hne H) as Hb.
    rewrite length_take in Hb. split; [|lia].
    apply prefix_lookup. intros i Hi.
    rewrite prefix_lookup in H. rewrite <-(H i Hi), !lookup_drop.
    by rewrite lookup_take_lt by lia.
  - intros [H Hb]. apply prefix_lookup. intros i Hi.
    rewrite prefix_lookup in H. rewrite <-(H i Hi), !lookup_drop.
    by rewrite lookup_take_lt by lia.
Qed.

Lemma find_take_None s sub i :
  sub ≠ [] → find s sub = Some i → find (take i s) sub = None.
Proof. intros. by apply find_None_occurs, occurs_take_find. Qed.

(** Cutting [s] after the first occurrence keeps it the first one. *)
Lemma find_take_Some s sub i j :
  sub ≠ [] → find s sub = Some i → i + length sub ≤ j →
  find (take j s) sub = Some i.
Proof.
  intros Hne [Hocc Hmin]%find_Some Hj. apply find_Some. split.
  - by apply prefix_drop_take.
  - intros k Hk [H _]%prefix_drop_take; [|done]. by apply (Hmin k).
Qed.

(** Cutting [s] inside its first occurrence leaves none. *)
Lemma find_take_short s sub i j :
  sub ≠ [] → find s sub = Some i → j < i + length sub →
  find (take j s) sub = None.
Proof.
  intros Hne [Hocc Hmin]%find_Some Hj. apply find_None.
  intros k [H Hk]%prefix_drop_take; [|done]. apply (Hmin k); [lia | done].
Qed.

Lemma prefix_of_prefix_drop s p sub j :
  p `prefix_of` sub → sub `prefix_of` drop j s → p `prefix_of` drop j s.
Proof. intros. by etrans. Qed.

(** *** A separator of one character *)

Lemma occurs_char c s : occurs [c] s ↔ c ∈ s.
Proof.
  split.
  - intros (pre & post & ->). rewrite elem_of_app. right. by left.
  - intros (pre & post & ->)%list_elem_of_split. by exists pre, post.
Qed.

Lemma find_app_char a b c sub :
  sub ≠ [] → c ∉ sub →
  find (a ++ c :: b) sub =
  match find a sub with
  | Some i => Some i
  | None => (λ i, length a + 1 + i) <$> find b sub
  end.
Proof.
  intros Hne Hc. induction a as [|x a IH].
  - cbn [app find].
    assert (startswith (c :: b) sub = startswith [] sub) as ->
      by apply (startswith_app_char [] b c sub Hc).
    destruct sub; [done|]. simpl. by destruct (find b _).
  - rewrite <-app_comm_cons. cbn [find].
    assert (startswith (x :: a ++ c :: b) sub = startswith (x :: a) sub) as ->
      by apply (startswith_app_char (x :: a) b c sub Hc).
    destruct (startswith (x :: a) sub); [done|].
    rewrite IH. destruct (find a sub); [done|].
    by destruct (find b sub).
Qed.

Lemma occurs_app_char a b c sub :
  sub ≠ [] → c ∉ sub →
  occurs sub (a ++ c :: b) → occurs sub a ∨ occurs sub b.
Proof.
  intros Hne Hc H.
  destruct (find a sub) eqn:Ea; [left; apply contains_occurs; unfold contains; by rewrite Ea|].
  destruct (find b sub) eqn:Eb; [right; apply contains_occurs; unfold contains; by rewrite Eb|].
  apply contains_occurs in H. unfold contains in H.
  by rewrite find_app_char, Ea, Eb in H.
Qed.

Lemma occurs_join_char c sub parts :
  sub ≠ [] → c ∉ sub →
  occurs sub (join [c] parts) → ∃ p, p ∈ parts ∧ occurs sub p.
Proof.
  intros Hne Hc. induction parts as [|p parts IH].
  - intros (pre & post & H). simpl in H. destruct pre, sub; done.
  - destruct parts as [|q parts].
    + intros H. exists p. split; [by left | done].
    + rewrite join_cons by done. intros [H|H]%occurs_app_char; [| |done..].
      * exists p. split; [by left | done].
      * destruct (IH H) as (r & Hr & Hocc). exists r. split; [by right | done].
Qed.

Lemma occurs_app_l sub a b : occurs sub a → occurs sub (a ++ b).
Proof. intros (pre & post & ->). exists pre, (post ++ b). by rewrite <-!app_assoc. Qed.

Lemma occurs_app_r sub a b : occurs sub b → occurs sub (a ++ b).
Proof. intros (pre & post & ->). exists (a ++ pre), post. by rewrite <-!app_assoc. Qed.

Lemma occurs_elem_join sub sep parts p :
  p ∈ parts → occurs sub p → occurs sub (join sep parts).
Proof.
  intros Hp Hocc. induction parts as [|q parts IH]; [by apply elem_of_nil in Hp|].
  destruct parts as [|r parts].
  - by apply list_elem_of_singleton in Hp as ->.
  - rewrite join_cons by done. apply elem_of_cons in Hp as [->|Hp].
    + by apply occurs_app_l.
    + by apply occurs_app_r, occurs_app_r, IH.
Qed.

Lemma find_char_None c s : c ∉ s → find s [c] = None.
Proof. rewrite <-occurs_char. apply find_None_occurs. Qed.

Lemma find_char_app c p rest : c ∉ p → find (p ++ c :: rest) [c] = Some (length p).
Proof.
  intros Hc. apply (find_first_occurrence [c] _ p rest). split; [done|].
  intros pre' post' Heq.
  destruct (decide (length pre' < length p)) as [Hlt|]; [|lia].
  destruct Hc. apply (f_equal (λ l, l !! length pre')) in Heq.
  rewrite lookup_app_l in Heq by done.
  rewrite lookup_app_r, Nat.sub_diag in Heq by done. simpl in Heq.
  by eapply list_elem_of_lookup_2.
Qed.

(** [sep.join(parts).split(sep) == parts] when no part contains the
    separator character and there is at least one part. *)
Lemma split_join_char c parts :
  parts ≠ [] → (∀ p, p ∈ parts → c ∉ p) →
  split (join [c] parts) [c] = parts.
Proof.
  induction parts as [|p parts IH]; [done|]. intros _ Hfree.
  assert (c ∉ p) as Hp by (apply Hfree; by left).
  destruct parts as [|q parts].
  - simpl. rewrite split_unfold by done. by rewrite find_char_None.
  - rewrite join_cons by done. rewrite split_unfold by done. simpl.
    rewrite find_char_app by done. rewrite take_app_length.
    rewrite <-(Nat.add_0_r (length p + 1)), <-Nat.add_assoc.
    rewrite drop_app_add. simpl. f_equal.
    apply IH; [done|]. intros r Hr. apply Hfree. by right.
Qed.

Lemma split_char_free c s p : p ∈ split s [c] → c ∉ p.
Proof. intros H ?%occurs_char. by eapply split_pieces_free in H. Qed.

(** *** [replace] *)

Lemma replace_id s old new : old ≠ [] → ¬ occurs old s → replace s old new = s.
Proof.
  intros Hne H%find_None_occurs. by rewrite replace_unfold, H.
Qed.

Lemma elem_of_replace_nil x s old : old ≠ [] → x ∈ replace s old [] → x ∈ s.
Proof.
  intros Hne. induction s as [s E|s i E IH] using (cut_ind old Hne);
    rewrite replace_unfold, E by done; [done|].
  rewrite !elem_of_app.
  intros [H|[H|H]]; [| by apply elem_of_nil in H |].
  - rewrite <-(take_drop i s). apply elem_of_app. by left.
  - apply IH in H. rewrite <-(take_drop (i + length old) s).
    apply elem_of_app. by right.
Qed.

(** A prefix in which no occurrence can start is left alone. *)
Lemma replace_skip p rest old new :
  old ≠ [] →
  find (p ++ rest) old = (λ i, length p + i) <$> find rest old →
  replace (p ++ rest) old new = p ++ replace rest old new.
Proof.
  intros Hne Hf. rewrite (replace_unfold (p ++ rest)), (replace_unfold rest), Hf by done.
  destruct (find rest old) as [i|]; [|done]. simpl.
  rewrite take_app_add, <-Nat.add_assoc, drop_app_add. by rewrite <-app_assoc.
Qed.

(** [replace] works line by line: it never reaches across a character
    that [old] does not contain. *)
Lemma replace_app_char a b c old new :
  old ≠ [] → c ∉ old →
  replace (a ++ c :: b) old new = replace a old new ++ c :: replace b old new.
Proof.
  intros Hne Hc. induction a as [a E|a i E IH] using (cut_ind old Hne).
  - rewrite (replace_unfold a), E by done.
    replace (a ++ c :: b) with ((a ++ [c]) ++ b) by by rewrite <-app_assoc.
    rewrite replace_skip; [by rewrite <-app_assoc | done |].
    rewrite <-app_assoc. simpl. rewrite find_app_char, E by done.
    rewrite length_app. simpl. done.
  - rewrite (replace_unfold (a ++ c :: b)), (replace_unfold a) by done.
    rewrite find_app_char, E by done.
    pose proof (find_Some_bound _ _ _ Hne E) as Hb.
    rewrite take_app_le, drop_app_le by lia. rewrite IH.
    by rewrite <-!app_assoc.
Qed.

Lemma replace_join_char c parts old new :
  old ≠ [] → c ∉ old →
  replace (join [c] parts) old new = join [c] ((λ p, replace p old new) <$> parts).
Proof.
  intros Hne Hc. induction parts as [|p parts IH]; [done|].
  destruct parts as [|q parts]; [done|].
  rewrite join_cons by done.
  change ([c] ++ ?x) with (c :: x). rewrite replace_app_char by done.
  rewrite IH. by rewrite (fmap_cons _ p), (join_cons [c] (replace p old new)).
Qed.

End StringFacts.

(** * Facts about [strip] *)

Section StripFacts.
Implicit Types s t kw ws : pystr.

Lemma lstrip_spaces ws t :
  Forall (λ c, isspace c = true) ws → lstrip (ws ++ t) = lstrip t.
Proof. induction 1 as [|c ws Hc _ IH]; [done|]. simpl. by rewrite Hc. Qed.

Lemma lstrip_decompose s :
  ∃ ws, s = ws ++ lstrip s ∧ Forall (λ c, isspace c = true) ws.
Proof.
  induction s as [|c s (ws & Heq & Hws)]; [by exists []|].
  simpl. destruct (isspace c) eqn:Hc.
  - exists (c :: ws). split; [by rewrite <-app_comm_cons, <-Heq | by constructor].
  - by exists [].
Qed.

(** Trailing whitespace never reaches into a prefix made of other
    characters. *)
Lemma startswith_rstrip t kw :
  Forall (λ c, isspace c = false) kw →
  startswith (rstrip t) kw = startswith t kw.
Proof.
  intros Hkw. revert kw Hkw. induction t as [|c t IH]; intros kw Hkw; [done|].
  destruct kw as [|k kw]; [by destruct (rstrip (c :: t))|].
  apply Forall_cons in Hkw as [Hk Hkw]. specialize (IH kw Hkw).
  cbn [rstrip]. destruct (rstrip t) as [|r rs] eqn:Er.
  - destruct (isspace c) eqn:Hc.
    + simpl. destruct (N.eqb_spec k c) as [->|]; [congruence | done].
    + simpl. by rewrite <-IH.
  - simpl. by rewrite <-IH.
Qed.

(** The line test only looks at what follows the leading whitespace. *)
Lemma startswith_strip s kw :
  Forall (λ c, isspace c = false) kw →
  startswith (strip s) kw = startswith (lstrip s) kw.
Proof. apply startswith_rstrip. Qed.

Lemma startswith_strip_decompose s kw :
  Forall (λ c, isspace c = false) kw →
  startswith (strip s) kw = true →
  ∃ ws rest, s = ws ++ kw ++ rest ∧ Forall (λ c, isspace c = true) ws.
Proof.
  intros Hkw. rewrite startswith_strip by done.
  intros [rest Hrest]%startswith_prefix.
  destruct (lstrip_decompose s) as (ws & Heq & Hws).
  exists ws, rest. by rewrite <-Hrest.
Qed.

Lemma startswith_strip_compose ws kw rest :
  kw ≠ [] →
  Forall (λ c, isspace c = false) kw →
  Forall (λ c, isspace c = true) ws →
  startswith (strip (ws ++ kw ++ rest)) kw = true.
Proof.
  intros Hne Hkw Hws. rewrite startswith_strip, lstrip_spaces by done.
  destruct kw as [|k kw]; [done|]. apply Forall_cons in Hkw as [Hk Hkw].
  rewrite <-app_comm_cons. cbn [lstrip]. rewrite Hk.
  apply (startswith_app rest (k :: kw)).
Qed.

Lemma show_call_chars :
  show_call = [102; 105; 103; 46; 115; 104; 111; 119; 40; 41]%N.
Proof. reflexivity. Qed.

Lemma import_chars : py "import" = [105; 109; 112; 111; 114; 116]%N.
Proof. reflexivity. Qed.

Lemma from_chars : py "from" = [102; 114; 111; 109]%N.
Proof. reflexivity. Qed.

(** No [fig.show()] starts in leading whitespace. *)
Lemma find_show_call_spaces ws t :
  Forall (λ c, isspace c = true) ws →
  find (ws ++ t) show_call = (λ i, length ws + i) <$> find t show_call.
Proof.
  induction 1 as [|c ws Hc _ IH].
  - simpl. by destruct (find t show_call).
  - rewrite <-app_comm_cons. cbn [find].
    assert (startswith (c :: ws ++ t) show_call = false) as ->.
    { rewrite show_call_chars. cbn [startswith].
      destruct (N.eqb_spec 102 c) as [<-|]; [by vm_compute in Hc | done]. }
    rewrite IH. by destruct (find t show_call).
Qed.

(** No [fig.show()] starts inside the keyword of an import line. *)
Lemma find_show_call_import rest :
  find (py "import" ++ rest) show_call = (λ i, 6 + i) <$> find rest show_call.
Proof.
  rewrite import_chars, show_call_chars. simpl. by destruct (find rest _).
Qed.

Lemma find_show_call_from rest :
  find (py "from" ++ rest) show_call = (λ i, 4 + i) <$> find rest show_call.
Proof.
  rewrite from_chars, show_call_chars. simpl. by destruct (find rest _).
Qed.

Lemma replace_show_call_line ws kw rest :
  kw = py "import" ∨ kw = py "from" →
  Forall (λ c, isspace c = true) ws →
  replace (ws ++ kw ++ rest) show_call [] =
  ws ++ kw ++ replace rest show_call [].
Proof.
  intros Hkw Hws.
  rewrite replace_skip; [f_equal | done | by apply find_show_call_spaces].
  apply replace_skip; [done|].
  destruct Hkw as [-> | ->];
    [apply find_show_call_import | apply find_show_call_from].
Qed.

Lemma import_like_iff line :
  import_like line = true ↔
  startswith (strip line) (py "import") = true ∨
  startswith (strip line) (py "from") = true.
Proof. unfold import_like. apply orb_true_iff. Qed.

(** Removing the show calls of an import-like line leaves it
    import-like. *)
Lemma import_like_replace line :
  import_like line = true → import_like (replace line show_call []) = true.
Proof.
  rewrite !import_like_iff.
  assert (Forall (λ c, isspace c = false) (py "import")) as Hi
    by (vm_compute; repeat constructor).
  assert (Forall (λ c, isspace c = false) (py "from")) as Hf
    by (vm_compute; repeat constructor).
  intros [H|H]; [left | right];
    apply startswith_strip_decompose in H as (ws & rest & -> & Hws); try done.
  - rewrite replace_show_call_line by auto.
    by apply startswith_strip_compose.
  - rewrite replace_show_call_line by auto.
    by apply startswith_strip_compose.
Qed.

End StripFacts.

(** * The code extractor *)

Section Extractor.
Implicit Types s sep response pre mid post rest : pystr.

Lemma split_first s sep :
  sep ≠ [] →
  split s sep !! 0 =
  Some (match find s sep with Some i => take i s | None => s end).
Proof. intros Hne. rewrite split_unfold by done. by destruct (find s sep). Qed.

Lemma split_second s sep i :
  sep ≠ [] → find s sep = Some i →
  split s sep !! 1 = split (drop (i + length sep) s) sep !! 0.
Proof. intros Hne E. by rewrite split_unfold, E. Qed.

Lemma fence_nonempty : fence ≠ [].
Proof. done. Qed.

Lemma fence_tag_nonempty : fence_tag ≠ [].
Proof. done. Qed.

Lemma fence_prefix_fence_tag : fence `prefix_of` fence_tag.
Proof. by exists (py "python"). Qed.

(** A response without the plain marker has no tagged marker either. *)
Lemma contains_fence_tag_fence response :
  contains fence_tag response = true → contains fence response = true.
Proof.
  rewrite !contains_occurs. intros (pre & post & ->).
  exists pre, (py "python" ++ post).
  by replace fence_tag with (fence ++ py "python").
Qed.

(** The tagged branch, read off the two [find]s it amounts to. *)
Lemma extract_tagged response i :
  find response fence_tag = Some i →
  let rest := drop (i + length fence_tag) response in
  let after := match find rest fence_tag with
               | Some j => take j rest
               | None => rest
               end in
  extract_code_from_response response =
  Some (strip (match find after fence with
               | Some k => take k after
               | None => after
               end)).
Proof.
  intros E. unfold extract_code_from_response, contains. rewrite E.
  rewrite (split_second _ _ i), split_first by done. cbn [mbind option_bind].
  by rewrite split_first.
Qed.

(** The block between the first closing marker of [rest] and its start is
    what the two nested splits return, unless a tagged marker begins one
    or two characters into that closing marker. *)
Lemma tagged_block rest mid post :
  first_occurrence fence rest mid post →
  ¬ py "`python" `prefix_of` post →
  ¬ py "``python" `prefix_of` post →
  let after := match find rest fence_tag with
               | Some j => take j rest
               | None => rest
               end in
  match find after fence with Some k => take k after | None => after end = mid.
Proof.
  intros [Hf ->]%find_first_occurrence H1 H2. cbn zeta.
  destruct (find _ fence_tag) as [j|] eqn:Ej.
  - pose proof Ej as [Hocc _]%find_Some.
    pose proof Hf as [_ Hmin]%find_Some.
    assert (length mid ≤ j) as Hle.
    { destruct (decide (j < length mid)) as [Hlt|]; [|lia].
      destruct (Hmin j Hlt). etrans; [apply fence_prefix_fence_tag | done]. }
    destruct (decide (length mid + length fence ≤ j)) as [Hfar|Hnear].
    + rewrite (find_take_Some _ _ (length mid)) by done.
      rewrite take_take, Nat.min_l by lia. apply take_app_length.
    + rewrite (find_take_short _ _ (length mid)) by (done || lia).
      change (length fence) with 3 in Hnear.
      replace j with (length mid + (j - length mid)) in Hocc |- * by lia.
      rewrite drop_app_add in Hocc.
      destruct (j - length mid) as [|[|[|d]]] eqn:Ed; [| | |lia].
      * by rewrite Nat.add_0_r, take_app_length.
      * destruct H1. by apply (prefix_app_inv (py "``")).
      * destruct H2. by apply (prefix_app_inv (py "`")).
  - rewrite Hf. apply take_app_length.
Qed.

(** The first branch never indexes out of range, nor does the second. *)
Lemma extract_total response : is_Some (extract_code_from_response response).
Proof.
  unfold extract_code_from_response, contains.
  destruct (find response fence_tag) as [i|] eqn:Et.
  - rewrite (split_second _ _ i), split_first by done. cbn [mbind option_bind].
    by rewrite split_first.
  - destruct (find response fence) as [k|] eqn:Ef; [|done].
    rewrite (split_second _ _ k), split_first by done. done.
Qed.

End Extractor.

(** * The sanitizer *)

Section Sanitizer.
Implicit Types s code line : pystr.
Implicit Types lines : list pystr.

Lemma show_call_nonempty : show_call ≠ [].
Proof. done. Qed.

Lemma NL_not_in_show_call : 10%N ∉ show_call.
Proof.
  rewrite show_call_chars. intros H%list_elem_of_In. simpl in H.
  repeat (destruct H as [H|H]; [discriminate H|]). done.
Qed.

Lemma import_like_empty : import_like [] = false.
Proof. reflexivity. Qed.

Lemma join_nil parts : join [] parts = concat parts.
Proof.
  induction parts as [|p parts IH]; [done|].
  destruct parts as [|q parts]; [simpl; by rewrite app_nil_r|].
  rewrite join_cons by done. simpl in *. by rewrite IH.
Qed.

(** Cutting out the show calls leaves the line structure alone: the
    lines of the result are the lines of the input, each without its
    show calls. *)
Lemma split_replace_lines code :
  split (replace code show_call []) NL =
  (λ line, replace line show_call []) <$> split code NL.
Proof.
  rewrite <-(join_split code NL) at 1 by done. unfold NL.
  rewrite replace_join_char
    by (apply show_call_nonempty || apply NL_not_in_show_call).
  apply split_join_char.
  - intros H%fmap_nil_inv. by apply split_nonempty in H.
  - intros p (line & -> & Hline)%list_elem_of_fmap Hin.
    apply elem_of_replace_nil in Hin; [|done].
    by apply split_char_free in Hline.
Qed.

(** The function line by line: the show calls are cut out of each line
    of the input, and the import-like lines are then left out. *)
Lemma clean_lines code :
  clean_generated_code code =
  join NL (filter (λ line, import_like line = false)
             ((λ line, replace line show_call []) <$> split code NL)).
Proof. unfold clean_generated_code. by rewrite split_replace_lines. Qed.


Lemma clean_line_free code line :
  line ∈ filter (λ line, import_like line = false)
           ((λ line, replace line show_call []) <$> split code NL) →
  10%N ∉ line.
Proof.
  intros [_ (l & -> & Hl)%list_elem_of_fmap]%list_elem_of_filter Hin.
  apply elem_of_replace_nil in Hin; [|done].
  by apply split_char_free in Hl.
Qed.

Lemma filter_id {A} (P : A → Prop) `{!∀ x, Decision (P x)} (l : list A) :
  (∀ x, x ∈ l → P x) → filter P l = l.
Proof.
  induction l as [|x l IH]; [done|]. intros Hall.
  rewrite filter_cons_True by (apply Hall; by left).
  f_equal. apply IH. intros y Hy. apply Hall. by right.
Qed.

(** *** Lengths, for the converse of idempotence *)

Lemma length_replace_nil_le s old :
  old ≠ [] → length (replace s old []) ≤ length s.
Proof.
  intros Hne. induction s as [s E|s i E IH] using (cut_ind old Hne);
    rewrite replace_unfold, E by done; [done|].
  rewrite !length_app, length_take. simpl.
  rewrite length_drop in IH. lia.
Qed.

Lemma length_replace_nil_lt s old :
  old ≠ [] → occurs old s → length (replace s old []) < length s.
Proof.
  intros Hne Hocc. rewrite replace_unfold by done.
  destruct (find s old) as [i|] eqn:E; [|by apply find_None_occurs in E].
  pose proof (find_Some_bound _ _ _ Hne E) as Hb.
  pose proof (length_replace_nil_le (drop (i + length old) s) old Hne) as Hle.
  assert (0 < length old) by (destruct old; [done | simpl; lia]).
  rewrite !length_app, length_take. simpl. rewrite length_drop in Hle. lia.
Qed.

Lemma length_join_tail sep p lines :
  length (join sep lines) ≤ length (join sep (p :: lines)).
Proof.
  destruct lines as [|q lines]; [simpl; lia|].
  rewrite (join_cons sep p) by done. rewrite !length_app. lia.
Qed.

Lemma length_join_filter sep (P : pystr → Prop) `{!∀ x, Decision (P x)} lines :
  length (join sep (filter P lines)) ≤ length (join sep lines).
Proof.
  induction lines as [|p lines IH]; [done|].
  rewrite filter_cons. destruct (decide (P p)).
  - destruct (filter P lines) as [|q kept] eqn:Ek.
    + destruct lines as [|q' lines]; [simpl; lia|].
      rewrite (join_cons sep p (q' :: lines)) by done.
      rewrite length_app. simpl. lia.
    + destruct lines as [|q' lines]; [discriminate Ek|].
      rewrite (join_cons sep p (q' :: lines)), (join_cons sep p (q :: kept)) by done.
      rewrite !length_app. lia.
  - etrans; [apply IH | apply length_join_tail].
Qed.

Lemma length_clean code :
  length (clean_generated_code code) ≤ length (replace code show_call []).
Proof.
  unfold clean_generated_code.
  etrans; [apply length_join_filter|]. by rewrite join_split.
Qed.

End Sanitizer.

(** * The properties of the specification *)

(** ** Code extractor *)

(** C4, as the code has it.  When the response holds a tagged opening
    marker and a closing marker after it, [extract_code_from_response]
    returns the text strictly between the first tagged opening marker and
    the next closing marker, trimmed, provided that closing marker is not
    directly followed by [`python] or [``python].  (The code cuts at the
    next tagged marker before it looks for the closing one, so a closing
    marker that overlaps a later tagged marker is missed.) *)
Theorem extract_tagged_block response pre mid post :
  first_occurrence fence_tag response pre (mid ++ fence ++ post) →
  first_occurrence fence (mid ++ fence ++ post) mid post →
  ¬ py "`python" `prefix_of` post →
  ¬ py "``python" `prefix_of` post →
  extract_code_from_response response = Some (strip mid).
Proof.
  intros [Hf Heq]%find_first_occurrence Hclose H1 H2.
  rewrite (extract_tagged _ _ Hf). cbn zeta. do 2 f_equal.
  assert (drop (length pre + length fence_tag) response = mid ++ fence ++ post)
    as ->.
  { rewrite Heq, <-drop_drop, drop_app_length. apply drop_app_length. }
  by apply (tagged_block _ mid post).
Qed.

Lemma extract_tagged_block_witness :
  extract_code_from_response
    (py "Here is the chart:" ++ NL ++ py "```python" ++ NL
     ++ py "fig = px.bar(df)" ++ NL ++ py "```" ++ NL ++ py "Done.")
  = Some (py "fig = px.bar(df)").
Proof.
  apply (extract_tagged_block _
           (py "Here is the chart:" ++ NL)
           (NL ++ py "fig = px.bar(df)" ++ NL)
           (NL ++ py "Done.")).
  - apply find_first_occurrence. split; reflexivity.
  - apply find_first_occurrence. split; reflexivity.
  - apply startswith_false. reflexivity.
  - apply startswith_false. reflexivity.
Defined.

(** C4 as stated fails: here the first closing marker after the tagged
    opening marker starts right after [x = 1] and a newline, but the
    function returns one more backquote. *)
Lemma extract_tagged_block_overlapping_marker :
  let response := py "```python" ++ NL ++ py "x = 1" ++ NL ++ py "````python" in
  let mid := NL ++ py "x = 1" ++ NL in
  first_occurrence fence_tag response [] (mid ++ fence ++ py "`python") ∧
  first_occurrence fence (mid ++ fence ++ py "`python") mid (py "`python") ∧
  extract_code_from_response response = Some (py "x = 1" ++ NL ++ py "`") ∧
  extract_code_from_response response ≠ Some (strip mid).
Proof.
  cbn zeta. split; [|split; [|split]].
  - apply find_first_occurrence. split; reflexivity.
  - apply find_first_occurrence. split; reflexivity.
  - reflexivity.
  - vm_compute. discriminate.
Qed.

(** C5, as the code has it.  [extract_code_from_response] never fails
    (no index is out of range), and on a response in which no fence
    marker occurs at all it returns the whole response trimmed. *)
Theorem extract_total_and_fallback response :
  (∃ code, extract_code_from_response response = Some code) ∧
  (¬ occurs fence response →
   extract_code_from_response response = Some (strip response)).
Proof.
  split; [apply extract_total|].
  intros Hno%contains_false. unfold extract_code_from_response.
  rewrite Hno. destruct (contains fence_tag response) eqn:Et; [|done].
  apply contains_fence_tag_fence in Et. congruence.
Qed.

Lemma extract_total_and_fallback_witness :
  extract_code_from_response (NL ++ py "  fig = px.bar(df)  " ++ NL)
  = Some (py "fig = px.bar(df)").
Proof.
  refine (proj2 (extract_total_and_fallback
                   (NL ++ py "  fig = px.bar(df)  " ++ NL)) _).
  apply contains_false. reflexivity.
Defined.

(** A fenced block needs two markers: after the first one there is
    another. *)
Lemma fenced_block_second_marker s :
  (∃ pre mid post, s = pre ++ fence ++ mid ++ fence ++ post) →
  ∃ i, find s fence = Some i ∧ occurs fence (drop (i + length fence) s).
Proof.
  intros (pre & mid & post & Hs).
  destruct (find s fence) as [i|] eqn:Hf.
  - exists i. split; [done|].
    pose proof Hf as [_ Hmin]%find_Some.
    assert (i ≤ length pre) as Hi.
    { destruct (decide (length pre < i)) as [Hlt|]; [|lia].
      destruct (Hmin _ Hlt). rewrite Hs. apply prefix_drop_of_app. }
    rewrite <-(take_drop (length pre - i) (drop (i + length fence) s)).
    apply occurs_app_r. rewrite drop_drop.
    replace (i + length fence + (length pre - i))
      with (length pre + length fence) by lia.
    rewrite Hs, <-drop_drop, drop_app_length, drop_app_length.
    by exists mid, post.
  - apply find_None_occurs in Hf. destruct Hf. rewrite Hs. by eexists _, _.
Qed.

(** C5 as stated fails: a response with a lone marker holds no fenced
    block, yet what comes back is the text after the marker, not the
    whole response. *)
Lemma extract_lone_marker_not_fallback :
  let response := py "use ``` for code" in
  ¬ (∃ pre mid post, response = pre ++ fence ++ mid ++ fence ++ post) ∧
  extract_code_from_response response = Some (py "for code") ∧
  extract_code_from_response response ≠ Some (strip response).
Proof.
  cbn zeta. split_and!.
  - intros (i & Hi & Hocc)%fenced_block_second_marker.
    assert (i = 4) as -> by (vm_compute in Hi; congruence).
    apply contains_occurs in Hocc. discriminate Hocc.
  - reflexivity.
  - vm_compute. discriminate.
Qed.

(** ** Code sanitizer *)

(** C6, as the code has it.  [clean_generated_code] cuts out the
    occurrences of [fig.show()] that one pass from the left finds: the
    text is pieces joined by the call, no piece contains it, and what is
    left is the pieces put together.  That leaves the line breaks alone:
    the lines left are those of the input, each without its calls, and a
    line of the input whose trimmed content starts with [import] or
    [from] still does.  Of the lines left it then drops exactly those
    whose trimmed content starts with [import] or [from], and keeps all
    others, blank ones included, in order and unchanged. *)
Theorem clean_removes_imports_and_show_calls code :
  let starts_import := λ line,
    startswith (strip line) (py "import") = true ∨
    startswith (strip line) (py "from") = true in
  ∃ pieces lines,
    code = join show_call pieces ∧
    Forall (λ piece, ¬ occurs show_call piece) pieces ∧
    concat pieces = join NL lines ∧
    Forall (λ line, 10%N ∉ line) lines ∧
    Forall2 (λ input_line line,
               line = concat (split input_line show_call) ∧
               (starts_import input_line → starts_import line))
      (split code NL) lines ∧
    clean_generated_code code =
      join NL (filter (λ line, ¬ starts_import line) lines) ∧
    ¬ starts_import [].
Proof.
  cbn zeta. exists (split code show_call), (split (replace code show_call []) NL).
  split_and!.
  - by rewrite join_split.
  - apply Forall_forall. intros piece Hp. by eapply split_pieces_free.
  - by rewrite <-join_nil, <-replace_join_split, join_split.
  - apply Forall_forall. intros line Hline. by eapply split_char_free.
  - rewrite split_replace_lines. apply Forall2_fmap_r, Forall_Forall2_diag.
    apply Forall_forall. intros line _. split.
    + by rewrite replace_join_split, join_nil.
    + rewrite <-!import_like_iff. apply import_like_replace.
  - unfold clean_generated_code. f_equal. apply list_filter_iff.
    intros line. rewrite <-import_like_iff. by destruct (import_like line).
  - by intros [?|?].
Qed.

(** C6 as stated fails.  Cutting a call out can bring another one
    together, which stays in the output; and a line that does not start
    with [import] can come to start with it once a call is cut out of
    it, and is then dropped. *)
Lemma clean_leaves_call_and_drops_other_line :
  clean_generated_code (py "fig.fig.show()show()") = py "fig.show()" ∧
  occurs show_call (clean_generated_code (py "fig.fig.show()show()")) ∧
  split (py "imfig.show()port os") NL = [py "imfig.show()port os"] ∧
  startswith (strip (py "imfig.show()port os")) (py "import") = false ∧
  startswith (strip (py "imfig.show()port os")) (py "from") = false ∧
  clean_generated_code (py "imfig.show()port os") = [].
Proof.
  split_and!; try reflexivity.
  apply contains_occurs. reflexivity.
Qed.

(** C7, as the code has it.  Sanitizing twice gives the same text as
    sanitizing once exactly when the sanitized text contains no
    [fig.show()].  (Cutting a call out can bring the two halves of another
    one together, and [replace] does not look at its own output.) *)
Theorem clean_idempotent_iff code :
  clean_generated_code (clean_generated_code code) = clean_generated_code code
  ↔ ¬ occurs show_call (clean_generated_code code).
Proof.
  split.
  - intros Heq Hocc.
    pose proof (length_clean (clean_generated_code code)) as Hle.
    pose proof (length_replace_nil_lt _ _ show_call_nonempty Hocc) as Hlt.
    rewrite Heq in Hle. lia.
  - intros Hno. unfold clean_generated_code at 1.
    rewrite replace_id by done. rewrite clean_lines.
    set (kept := filter _ (_ <$> split code NL)).
    assert (∀ line, line ∈ kept → 10%N ∉ line) as Hfree
      by (intros line; apply clean_line_free).
    assert (∀ line, line ∈ kept → import_like line = false) as Hkeep
      by (by intros line [? _]%list_elem_of_filter).
    clearbody kept. destruct kept as [|l kept]; [done|].
    unfold NL. rewrite split_join_char by done. by rewrite filter_id.
Qed.

Lemma clean_idempotent_iff_witness :
  let code := py "import pandas as pd" ++ NL ++ py "fig = px.bar(df)" ++ NL
              ++ py "fig.show()" in
  clean_generated_code (clean_generated_code code) = clean_generated_code code.
Proof.
  cbn zeta. apply (proj2 (clean_idempotent_iff _)).
  apply contains_false. reflexivity.
Defined.

(** C7 as stated fails: one pass leaves a show call that the second pass
    removes. *)
Lemma clean_not_idempotent :
  let code := py "fig.fig.show()show()" in
  clean_generated_code code = py "fig.show()" ∧
  clean_generated_code (clean_generated_code code) = [] ∧
  clean_generated_code (clean_generated_code code) ≠ clean_generated_code code.
Proof. cbn zeta. split_and!; [reflexivity | reflexivity | by vm_compute]. Qed.

(** C8, as the code has it.  On the scenario input the import line is
    dropped altogether, so the output starts with the chart line. *)
Theorem clean_scenario :
  clean_generated_code
    (py "import pandas as pd" ++ NL ++ py "fig = px.bar(df)" ++ NL
     ++ py "fig.show()")
  = py "fig = px.bar(df)" ++ NL.
Proof. reflexivity. Qed.

(** C8 as stated fails: no blank line stands in for the import line. *)
Lemma clean_scenario_no_blank_line :
  clean_generated_code
    (py "import pandas as pd" ++ NL ++ py "fig = px.bar(df)" ++ NL
     ++ py "fig.show()")
  ≠ NL ++ py "fig = px.bar(df)" ++ NL.
Proof. by vm_compute. Qed.



Example clean_drops_longer_identifiers :
  clean_generated_code
    (py "important_var = 1" ++ NL ++ py "fig = px.bar(df)" ++ NL
     ++ py "  fromage = 2")
  = py "fig = px.bar(df)".
Proof. reflexivity. Qed.

(** ** Sandbox executor *)

Section ExecutorFacts.
Variable run : pystr → gmap pystr value → outcome (gmap pystr value).
Implicit Types code : pystr.
Implicit Types df : DataFrame.










End ExecutorFacts.










(** ** Service-calling entry points *)

Section ServiceFacts.
Variable chat_groq create_sql_agent : outcome ().
Variable llm_invoke : pystr → outcome pystr.
Variable agent_invoke : pystr → outcome (gmap pystr pystr).

(** With a client at hand, [generate_chart_code] is its one request
    followed by the two text functions. *)
Lemma generate_chart_code_run query df log :
  chat_groq = Returns () →
  generate_chart_code chat_groq llm_invoke query df log =
  (content ← llm_invoke (chart_prompt query df);
   match extract_code_from_response content with
   | Some code => Returns (clean_generated_code code)
   | None => Raises (Exception (py "list index out of range"))
   end,
   log ++ [LLMInvoke (chart_prompt query df)]).
Proof.
  intros Hllm.
  unfold generate_chart_code, local, call_llm, mbind at 1 2 3 4, io_bind,
    outcome_bind.
  rewrite Hllm. destruct (llm_invoke _) as [content| |]; [|done..].
  by destruct (extract_code_from_response content).
Qed.

(** So is [get_answer]. *)
Lemma get_answer_run question table_name log :
  chat_groq = Returns () → create_sql_agent = Returns () →
  get_answer chat_groq create_sql_agent agent_invoke question table_name log =
  (response ← agent_invoke (contextualized_question question table_name);
   Returns (default (py "Sorry, I couldn't find an answer to your question.")
              (response !! py "output")),
   log ++ [AgentInvoke (contextualized_question question table_name)]).
Proof.
  intros Hllm Hagent.
  unfold get_answer, local, call_agent, mbind at 1 2 3, io_bind.
  rewrite Hllm, Hagent. by destruct (agent_invoke _).
Qed.

(** Without a client nothing is sent. *)
Lemma generate_chart_code_no_client query df log e :
  chat_groq = Raises e →
  generate_chart_code chat_groq llm_invoke query df log = (Raises e, log).
Proof. intros Hllm. unfold generate_chart_code, local, mbind, io_bind. by rewrite Hllm. Qed.

End ServiceFacts.

(** C9, as the code has it.  [generate_chart_code] and [get_answer] do
    not look at the query before they call out: once the client is
    built, for every query, the empty one included, each sends exactly
    one request, built from the query, and its outcome is the one of that
    request (the sanitized extracted code, resp. the agent's answer or the
    fixed apology). *)
Theorem generation_always_calls_service
    chat_groq create_sql_agent llm_invoke agent_invoke query table_name df log :
  chat_groq = Returns () →
  create_sql_agent = Returns () →
  let chart := generate_chart_code chat_groq llm_invoke query df log in
  let answer :=
    get_answer chat_groq create_sql_agent agent_invoke query table_name log in
  chart.2 = log ++ [LLMInvoke (chart_prompt query df)] ∧
  (∀ content,
     llm_invoke (chart_prompt query df) = Returns content →
     ∃ code, extract_code_from_response content = Some code ∧
             chart.1 = Returns (clean_generated_code code)) ∧
  (∀ e, llm_invoke (chart_prompt query df) = Raises e → chart.1 = Raises e) ∧
  answer.2 = log ++ [AgentInvoke (contextualized_question query table_name)] ∧
  (∀ response,
     agent_invoke (contextualized_question query table_name) = Returns response →
     answer.1 =
     Returns (default (py "Sorry, I couldn't find an answer to your question.")
                (response !! py "output"))) ∧
  (∀ e, agent_invoke (contextualized_question query table_name) = Raises e →
        answer.1 = Raises e).
Proof.
  intros Hllm Hagent. cbn zeta.
  rewrite (generate_chart_code_run _ _ _ _ _ Hllm).
  rewrite (get_answer_run _ _ _ _ _ _ Hllm Hagent).
  split_and!; [done | | | done | |].
  - intros content Hc. rewrite Hc.
    destruct (extract_total content) as [code Hcode]. exists code.
    split; [done|]. simpl. by rewrite Hcode.
  - by intros e ->.
  - by intros response ->.
  - by intros e ->.
Qed.

Lemma generation_always_calls_service_witness :
  let llm := λ _ : pystr, Returns (py "```python" ++ NL ++ py "fig = px.bar(df)"
                                   ++ NL ++ py "```") in
  let agent := λ _ : pystr, Returns (∅ : gmap pystr pystr) in
  (generate_chart_code (Returns ()) llm [] sales []).2 =
    [LLMInvoke (chart_prompt [] sales)] ∧
  (get_answer (Returns ()) (Returns ()) agent [] (py "current_data") []).1 =
    Returns (py "Sorry, I couldn't find an answer to your question.").
Proof.
  cbn zeta.
  pose proof (generation_always_calls_service (Returns ()) (Returns ())
                (λ _, Returns (py "```python" ++ NL ++ py "fig = px.bar(df)"
                               ++ NL ++ py "```"))
                (λ _, Returns ∅) [] (py "current_data") sales []
                eq_refl eq_refl) as (Hlog & _ & _ & _ & Hanswer & _).
  split; [exact Hlog | exact (Hanswer ∅ eq_refl)].
Defined.

(** C9 as stated fails: called with an empty query, [generate_chart_code]
    sends the prompt and returns the code, and [get_answer] asks the
    agent and returns its answer. *)
Lemma empty_query_not_rejected :
  let llm := λ _ : pystr, Returns (py "fig = px.bar(df)") in
  let agent := λ _ : pystr,
    Returns ({[ py "output" := py "42" ]} : gmap pystr pystr) in
  generate_chart_code (Returns ()) llm [] sales [] =
    (Returns (py "fig = px.bar(df)"), [LLMInvoke (chart_prompt [] sales)]) ∧
  get_answer (Returns ()) (Returns ()) agent [] (py "current_data") [] =
    (Returns (py "42"),
     [AgentInvoke (py "Using the current_data table, ")]) ∧
  ¬ (∀ chat_groq llm_invoke df,
       ∃ e, generate_chart_code chat_groq llm_invoke [] df [] = (Raises e, [])) ∧
  ¬ (∀ chat_groq create_sql_agent agent_invoke table_name,
       ∃ e, get_answer chat_groq create_sql_agent agent_invoke [] table_name []
            = (Raises e, [])).
Proof.
  cbn zeta. split_and!.
  - reflexivity.
  - reflexivity.
  - intros H.
    destruct (H (Returns ()) (λ _, Returns (py "fig = px.bar(df)")) sales)
      as [e He].
    discriminate He.
  - intros H.
    destruct (H (Returns ()) (Returns ()) (λ _, Returns ∅) (py "current_data"))
      as [e He].
    discriminate He.
Qed.

(** * Further properties *)

(** ** The extractor, beyond the tagged branch *)

Section MoreStripFacts.
Implicit Types s t sub : pystr.

Lemma rstrip_idempotent t : rstrip (rstrip t) = rstrip t.
Proof.
  induction t as [|c t IH]; [done|]. cbn [rstrip].
  destruct (rstrip t) as [|x r] eqn:Er.
  - destruct (isspace c) eqn:Hc; [done|]. simpl. by rewrite Hc.
  - cbn [rstrip]. cbn [rstrip] in IH. by rewrite IH.
Qed.

Lemma rstrip_decompose t : ∃ ws, t = rstrip t ++ ws.
Proof.
  induction t as [|c t [ws Hws]]; [by exists []|]. cbn [rstrip].
  destruct (rstrip t) as [|x r].
  - destruct (isspace c); [by exists (c :: t)|].
    exists ws. simpl in *. by rewrite <-Hws.
  - exists ws. rewrite <-app_comm_cons. by rewrite <-Hws.
Qed.

(** What [lstrip] leaves does not start with whitespace, and [rstrip]
    does not change that. *)
Lemma lstrip_rstrip_lstrip s : lstrip (rstrip (lstrip s)) = rstrip (lstrip s).
Proof.
  induction s as [|c s IH]; [done|]. cbn [lstrip].
  destruct (isspace c) eqn:Hc; [done|]. cbn [rstrip].
  destruct (rstrip s); rewrite ?Hc; simpl; by rewrite Hc.
Qed.

(** [s.strip().strip() == s.strip()] *)
Lemma strip_idempotent s : strip (strip s) = strip s.
Proof.
  unfold strip. by rewrite lstrip_rstrip_lstrip, rstrip_idempotent.
Qed.

(** Trimming only takes characters away at the two ends. *)
Lemma strip_decompose s : ∃ before after, s = before ++ strip s ++ after.
Proof.
  destruct (lstrip_decompose s) as (before & Hs & _).
  destruct (rstrip_decompose (lstrip s)) as [after Hl].
  exists before, after. unfold strip. by rewrite <-Hl.
Qed.

Lemma occurs_strip sub s : occurs sub (strip s) → occurs sub s.
Proof.
  destruct (strip_decompose s) as (before & after & Hs).
  intros H. rewrite Hs. by apply occurs_app_r, occurs_app_l.
Qed.

End MoreStripFacts.

Section MoreExtractor.
Implicit Types response pre mid post rest code : pystr.

(** The second branch, read off the two [find]s it amounts to. *)
Lemma extract_untagged response i :
  find response fence_tag = None →
  find response fence = Some i →
  extract_code_from_response response =
  Some (strip (let rest := drop (i + length fence) response in
               match find rest fence with
               | Some k => take k rest
               | None => rest
               end)).
Proof.
  intros Et Ef. unfold extract_code_from_response, contains. rewrite Et, Ef.
  rewrite (split_second _ _ i), split_first by done. done.
Qed.

(** Whatever branch is taken, the result is the trimmed form of a text
    without a fence marker. *)
Lemma extract_shape response code :
  extract_code_from_response response = Some code →
  ∃ block, code = strip block ∧ ¬ occurs fence block.
Proof.
  unfold extract_code_from_response.
  destruct (contains fence_tag response) eqn:Et.
  - destruct (split response fence_tag !! 1) as [after|]; [|done].
    cbn [mbind option_bind].
    destruct (split after fence !! 0) as [block|] eqn:Eb; [|done].
    intros [= <-]. exists block. split; [done|].
    apply list_elem_of_lookup_2 in Eb. by eapply split_pieces_free.
  - destruct (contains fence response) eqn:Ef.
    + destruct (split response fence !! 1) as [block|] eqn:Eb; [|done].
      intros [= <-]. exists block. split; [done|].
      apply list_elem_of_lookup_2 in Eb. by eapply split_pieces_free.
    + intros [= <-]. exists response. split; [done|]. by apply contains_false.
Qed.

End MoreExtractor.

(** X1.  Without a tagged marker the second branch decides: the result
    is the trimmed text between the first and the second plain marker,
    or, when there is no second one, everything after the first. *)
Theorem extract_untagged_block response pre rest :
  ¬ occurs fence_tag response →
  first_occurrence fence response pre rest →
  (∀ mid post,
     first_occurrence fence rest mid post →
     extract_code_from_response response = Some (strip mid)) ∧
  (¬ occurs fence rest →
   extract_code_from_response response = Some (strip rest)).
Proof.
  intros Ht%find_None_occurs [Hf Heq]%find_first_occurrence.
  rewrite (extract_untagged _ _ Ht Hf). cbn zeta.
  assert (drop (length pre + length fence) response = rest) as ->.
  { rewrite Heq, <-drop_drop, drop_app_length. apply drop_app_length. }
  split.
  - intros mid post [Hm ->]%find_first_occurrence. rewrite Hm.
    by rewrite take_app_length.
  - intros Hno%find_None_occurs. by rewrite Hno.
Qed.

Lemma extract_untagged_block_witness :
  extract_code_from_response
    (py "Try this:" ++ NL ++ py "```js" ++ NL ++ py "fig = px.bar(df)" ++ NL
     ++ py "```" ++ NL ++ py "Done.")
  = Some (py "js" ++ NL ++ py "fig = px.bar(df)").
Proof.
  refine (proj1 (extract_untagged_block
                   (py "Try this:" ++ NL ++ py "```js" ++ NL
                    ++ py "fig = px.bar(df)" ++ NL ++ py "```" ++ NL
                    ++ py "Done.")
                   (py "Try this:" ++ NL)
                   (py "js" ++ NL ++ py "fig = px.bar(df)" ++ NL ++ py "```"
                    ++ NL ++ py "Done.") _ _)
            (py "js" ++ NL ++ py "fig = px.bar(df)" ++ NL)
            (NL ++ py "Done.") _).
  - apply contains_false. reflexivity.
  - apply find_first_occurrence. split; reflexivity.
  - apply find_first_occurrence. split; reflexivity.
Defined.

(** X2.  The extracted code never contains a fence marker and has no
    whitespace left at either end. *)
Theorem extract_no_fence_trimmed response code :
  extract_code_from_response response = Some code →
  ¬ occurs fence code ∧ strip code = code.
Proof.
  intros (block & -> & Hfree)%extract_shape. split.
  - by intros ?%occurs_strip.
  - apply strip_idempotent.
Qed.

Lemma extract_no_fence_trimmed_witness :
  let code := py "x = 1" ++ NL ++ py "`" in
  ¬ occurs fence code ∧ strip code = code.
Proof.
  cbn zeta.
  refine (extract_no_fence_trimmed
            (py "```python" ++ NL ++ py "x = 1" ++ NL ++ py "````python")
            (py "x = 1" ++ NL ++ py "`") _).
  reflexivity.
Defined.

(** X3.  Extracting again changes nothing: the extractor returns its own
    output as it is. *)
Theorem extract_idempotent response code :
  extract_code_from_response response = Some code →
  extract_code_from_response code = Some code.
Proof.
  intros (block & -> & Hfree)%extract_shape.
  assert (contains fence (strip block) = false) as Hf.
  { apply contains_false. by intros ?%occurs_strip. }
  unfold extract_code_from_response. rewrite Hf.
  destruct (contains fence_tag (strip block)) eqn:Et.
  - apply contains_fence_tag_fence in Et. congruence.
  - by rewrite strip_idempotent.
Qed.

Lemma extract_idempotent_witness :
  extract_code_from_response (py "fig = px.bar(df)") = Some (py "fig = px.bar(df)").
Proof.
  refine (extract_idempotent
            (py "Here:" ++ NL ++ py "```python" ++ NL ++ py "fig = px.bar(df)"
             ++ NL ++ py "```")
            (py "fig = px.bar(df)") _).
  reflexivity.
Defined.

(** ** The sanitizer, as a whole-text function *)

Section MoreSanitizer.
Implicit Types code line : pystr.
Implicit Types lines : list pystr.

(** No line of the output is import-like. *)
Lemma clean_output_lines code :
  Forall (λ line, import_like line = false)
    (split (clean_generated_code code) NL).
Proof.
  rewrite clean_lines. set (kept := filter _ _).
  assert (∀ line, line ∈ kept → 10%N ∉ line) as Hfree
    by (intros line; apply clean_line_free).
  assert (Forall (λ line, import_like line = false) kept) as Hkeep
    by (apply Forall_forall; by intros line [? _]%list_elem_of_filter).
  clearbody kept. destruct kept as [|l kept].
  - by repeat constructor.
  - unfold NL. by rewrite split_join_char.
Qed.

(** A text without show calls and import-like lines is left as it is. *)
Lemma clean_unchanged code :
  ¬ occurs show_call code →
  Forall (λ line, import_like line = false) (split code NL) →
  clean_generated_code code = code.
Proof.
  intros Hshow Hlines. unfold clean_generated_code.
  rewrite replace_id by done.
  rewrite filter_id by (by apply Forall_forall).
  by apply join_split.
Qed.

(** Leaving out a non-empty line makes the joined text shorter. *)
Lemma length_join_filter_lt sep (P : pystr → Prop)
    `{!∀ x, Decision (P x)} lines :
  (∃ x, x ∈ lines ∧ ¬ P x) →
  (∀ x, x ∈ lines → ¬ P x → x ≠ []) →
  length (join sep (filter P lines)) < length (join sep lines).
Proof.
  induction lines as [|p lines IH]; intros (x & Hx & HPx) Hne.
  - by apply elem_of_nil in Hx.
  - rewrite filter_cons. destruct (decide (P p)) as [HP|HP].
    + apply elem_of_cons in Hx as [->|Hx]; [done|].
      assert (length (join sep (filter P lines)) < length (join sep lines))
        as Hlt.
      { apply IH; [by exists x|]. intros y Hy. apply Hne. by right. }
      destruct lines as [|q lines]; [by apply elem_of_nil in Hx|].
      rewrite (join_cons sep p (q :: lines)) by done.
      destruct (filter P (q :: lines)) as [|r kept].
      * change (length (join sep [])) with 0 in Hlt.
        change (join sep [p]) with p. rewrite !length_app. lia.
      * rewrite (join_cons sep p (r :: kept)) by done.
        rewrite !length_app. lia.
    + assert (p ≠ []) as Hp by (apply Hne; [by left | done]).
      pose proof (length_join_filter sep P lines) as Hle.
      destruct lines as [|q lines].
      * destruct p; [done | simpl; lia].
      * rewrite (join_cons sep p (q :: lines)) by done.
        rewrite !length_app. destruct p; [done | cbn [length]; lia].
Qed.

Lemma import_like_nonempty line : import_like line = true → line ≠ [].
Proof. by intros H ->. Qed.

(** A changed text is a shorter text. *)
Lemma length_clean_lt code :
  clean_generated_code code ≠ code →
  length (clean_generated_code code) < length code.
Proof.
  intros Hchanged.
  destruct (contains show_call code) eqn:Hshow.
  - apply contains_occurs in Hshow.
    pose proof (length_clean code).
    pose proof (length_replace_nil_lt _ _ show_call_nonempty Hshow). lia.
  - apply contains_false in Hshow.
    unfold clean_generated_code in *. rewrite replace_id in * by done.
    rewrite <-(join_split code NL) at 2 by done.
    apply length_join_filter_lt.
    + destruct (decide (Forall (λ line, import_like line = false)
                          (split code NL))) as [Hall|Hsome].
      * destruct Hchanged. rewrite filter_id by (by apply Forall_forall).
        by apply join_split.
      * apply not_Forall_Exists in Hsome; [|apply _].
        apply Exists_exists in Hsome as (x & Hx & Hnot). by exists x.
    + intros x _ Hx. apply import_like_nonempty.
      by destruct (import_like x).
Qed.

Lemma iter_clean_fixed n code :
  clean_generated_code code = code →
  Nat.iter n clean_generated_code code = code.
Proof. intros H. induction n as [|n IH]; [done|]. simpl. by rewrite IH. Qed.

Lemma iter_clean_stable n code :
  length code ≤ n →
  clean_generated_code (Nat.iter n clean_generated_code code) =
  Nat.iter n clean_generated_code code.
Proof.
  revert code. induction n as [|n IH]; intros code Hn.
  - by destruct code; [|simpl in Hn; lia].
  - destruct (decide (clean_generated_code code = code)) as [Hfix|Hch].
    + by rewrite !iter_clean_fixed.
    + apply length_clean_lt in Hch.
      rewrite Nat.iter_succ_r. apply IH. lia.
Qed.

End MoreSanitizer.

(** X4.  No line of the sanitized text starts, after trimming, with
    [import] or [from]. *)
Theorem clean_output_has_no_import_line code line :
  line ∈ split (clean_generated_code code) NL →
  startswith (strip line) (py "import") = false ∧
  startswith (strip line) (py "from") = false.
Proof.
  intros Hline.
  pose proof (clean_output_lines code) as Hall.
  rewrite Forall_forall in Hall. apply Hall in Hline.
  by apply orb_false_iff in Hline.
Qed.

Lemma clean_output_has_no_import_line_witness :
  startswith (strip (py "fig = px.bar(df)")) (py "import") = false ∧
  startswith (strip (py "fig = px.bar(df)")) (py "from") = false.
Proof.
  refine (clean_output_has_no_import_line
            (py "import pandas as pd" ++ NL ++ py "fig = px.bar(df)" ++ NL
             ++ py "fig.show()")
            (py "fig = px.bar(df)") _).
  assert (bool_decide
            (py "fig = px.bar(df)" ∈
             split (clean_generated_code
                      (py "import pandas as pd" ++ NL ++ py "fig = px.bar(df)"
                       ++ NL ++ py "fig.show()")) NL) = true) as H
    by reflexivity.
  by apply bool_decide_eq_true in H.
Defined.

(** X5.  The sanitizer leaves a text unchanged exactly when the text
    holds no [fig.show()] and none of its lines is import-like. *)
Theorem clean_fixed_point_iff code :
  clean_generated_code code = code ↔
  ¬ occurs show_call code ∧
  Forall (λ line, import_like line = false) (split code NL).
Proof.
  split.
  - intros Heq. split.
    + intros Hocc.
      pose proof (length_clean code).
      pose proof (length_replace_nil_lt _ _ show_call_nonempty Hocc).
      rewrite Heq in *. lia.
    + rewrite <-Heq at 1. apply clean_output_lines.
  - intros [Hshow Hlines]. by apply clean_unchanged.
Qed.

Lemma clean_fixed_point_iff_witness :
  let code := py "top = df.head(5)" ++ NL ++ NL ++ py "fig = px.bar(top)" in
  clean_generated_code code = code.
Proof.
  cbn zeta. apply (proj2 (clean_fixed_point_iff _)). split.
  - apply contains_false. reflexivity.
  - vm_compute. repeat constructor.
Defined.

(** X6.  Sanitizing never makes the text longer, and whenever it changes
    the text it makes it shorter. *)
Theorem clean_shrinks code :
  length (clean_generated_code code) ≤ length code ∧
  (clean_generated_code code ≠ code →
   length (clean_generated_code code) < length code).
Proof.
  split; [|apply length_clean_lt].
  destruct (decide (clean_generated_code code = code)) as [->|Hch]; [done|].
  apply length_clean_lt in Hch. lia.
Qed.

Lemma clean_shrinks_witness :
  length (clean_generated_code (py "fig.fig.show()show()")) < 20.
Proof.
  refine (proj2 (clean_shrinks (py "fig.fig.show()show()")) _).
  by vm_compute.
Defined.

(** X7.  Although one more pass can still change the text, repeated
    sanitizing settles: after as many passes as the text has characters
    a further pass changes nothing. *)
Theorem clean_settles code :
  let settled := Nat.iter (length code) clean_generated_code code in
  clean_generated_code settled = settled.
Proof. cbn zeta. by apply iter_clean_stable. Qed.

(** X8.  A text all of whose lines are import-like is sanitized to the
    empty text. *)
Theorem clean_only_imports code :
  Forall (λ line, import_like line = true) (split code NL) →
  clean_generated_code code = [].
Proof.
  intros Hall. rewrite clean_lines.
  replace (filter _ _) with (@nil pystr); [done|].
  symmetry. induction Hall as [|line lines Hline _ IH]; [done|].
  rewrite fmap_cons, filter_cons_False; [done|].
  by rewrite (import_like_replace line Hline).
Qed.

Lemma clean_only_imports_witness :
  clean_generated_code
    (py "import pandas as pd" ++ NL ++ py "from plotly import express")
  = [].
Proof.
  apply clean_only_imports. vm_compute. repeat constructor.
Defined.

(** ** The service callers, as their callers see them *)

Section MoreServices.
Variable chat_groq create_sql_agent : outcome ().
Variable llm_invoke : pystr → outcome pystr.
Variable agent_invoke : pystr → outcome (gmap pystr pystr).

(** [generate_chart_code] in full: the client first, then the one
    request, then the two text functions. *)
Lemma generate_chart_code_cases query df log :
  generate_chart_code chat_groq llm_invoke query df log =
  match chat_groq with
  | Returns _ =>
      (content ← llm_invoke (chart_prompt query df);
       match extract_code_from_response content with
       | Some code => Returns (clean_generated_code code)
       | None => Raises (Exception (py "list index out of range"))
       end,
       log ++ [LLMInvoke (chart_prompt query df)])
  | Raises e => (Raises e, log)
  | Diverges => (Diverges, log)
  end.
Proof.
  destruct chat_groq as [[]|e|] eqn:Hllm.
  - by apply generate_chart_code_run.
  - done.
  - done.
Qed.

Lemma get_answer_cases question table_name log :
  get_answer chat_groq create_sql_agent agent_invoke question table_name log =
  match chat_groq, create_sql_agent with
  | Returns _, Returns _ =>
      (response ← agent_invoke (contextualized_question question table_name);
       Returns
         (default (py "Sorry, I couldn't find an answer to your question.")
            (response !! py "output")),
       log ++ [AgentInvoke (contextualized_question question table_name)])
  | Returns _, Raises e => (Raises e, log)
  | Returns _, Diverges => (Diverges, log)
  | Raises e, _ => (Raises e, log)
  | Diverges, _ => (Diverges, log)
  end.
Proof.
  destruct chat_groq as [[]|e|] eqn:Hllm; [|done..].
  destruct create_sql_agent as [[]|e|] eqn:Hagent; [|done..].
  by apply get_answer_run.
Qed.

End MoreServices.

(** X11.  [generate_chart_code] has no failure of its own: when it
    raises, building the client raised that exception and nothing was
    sent, or the one request it sent raised it. *)
Theorem generate_chart_code_failures chat_groq llm_invoke query df log e :
  (generate_chart_code chat_groq llm_invoke query df log).1 = Raises e →
  (chat_groq = Raises e ∧
   (generate_chart_code chat_groq llm_invoke query df log).2 = log) ∨
  (chat_groq = Returns () ∧
   llm_invoke (chart_prompt query df) = Raises e ∧
   (generate_chart_code chat_groq llm_invoke query df log).2 =
   log ++ [LLMInvoke (chart_prompt query df)]).
Proof.
  rewrite generate_chart_code_cases.
  destruct chat_groq as [[]|e0|]; simpl.
  - destruct (llm_invoke _) as [content|e1|] eqn:Hc; simpl; [|by intros [= ->]; right|done].
    destruct (extract_total content) as [code ->]. done.
  - intros [= ->]. by left.
  - done.
Qed.

Lemma generate_chart_code_failures_witness :
  let quota := Exception (py "rate limit reached") in
  (Returns () : outcome ()) = Raises quota ∧
  (generate_chart_code (Returns ()) (λ _, Raises quota) (py "top 5") sales []).2
  = [] ∨
  (Returns () : outcome ()) = Returns () ∧
  Raises quota = (Raises quota : outcome pystr) ∧
  (generate_chart_code (Returns ()) (λ _, Raises quota) (py "top 5") sales []).2
  = [LLMInvoke (chart_prompt (py "top 5") sales)].
Proof.
  cbn zeta.
  refine (generate_chart_code_failures (Returns ())
            (λ _, Raises (Exception (py "rate limit reached")))
            (py "top 5") sales [] (Exception (py "rate limit reached")) _).
  reflexivity.
Defined.

(** X12.  The code [generate_chart_code] returns is sanitized extracted
    text: trimmed before sanitizing, free of fence markers before
    sanitizing, and without any import-like line. *)
Theorem generate_chart_code_returns chat_groq llm_invoke query df log code :
  (generate_chart_code chat_groq llm_invoke query df log).1 = Returns code →
  ∃ content extracted,
    llm_invoke (chart_prompt query df) = Returns content ∧
    extract_code_from_response content = Some extracted ∧
    code = clean_generated_code extracted ∧
    Forall (λ line, import_like line = false) (split code NL).
Proof.
  rewrite generate_chart_code_cases.
  destruct chat_groq as [[]|e0|]; simpl; [|done..].
  destruct (llm_invoke _) as [content|e1|] eqn:Hc; simpl; [|done..].
  destruct (extract_code_from_response content) as [extracted|] eqn:He; [|done].
  intros [= <-]. exists content, extracted. split_and!; try done.
  apply clean_output_lines.
Qed.

Lemma generate_chart_code_returns_witness :
  ∃ content extracted,
    Returns (py "```python" ++ NL ++ py "import plotly" ++ NL
             ++ py "fig = px.bar(df)" ++ NL ++ py "```") = Returns content ∧
    extract_code_from_response content = Some extracted ∧
    py "fig = px.bar(df)" = clean_generated_code extracted ∧
    Forall (λ line, import_like line = false) (split (py "fig = px.bar(df)") NL).
Proof.
  refine (generate_chart_code_returns (Returns ())
            (λ _, Returns (py "```python" ++ NL ++ py "import plotly" ++ NL
                           ++ py "fig = px.bar(df)" ++ NL ++ py "```"))
            (py "top 5") sales [] (py "fig = px.bar(df)") _).
  reflexivity.
Defined.

(** X13.  [get_answer] asks the agent only once the client and the
    agent are both built; if building either fails, that failure is the
    result and nothing is sent. *)
Theorem get_answer_needs_both_objects
    chat_groq create_sql_agent agent_invoke question table_name log e :
  (chat_groq = Raises e →
   get_answer chat_groq create_sql_agent agent_invoke question table_name log
   = (Raises e, log)) ∧
  (chat_groq = Returns () → create_sql_agent = Raises e →
   get_answer chat_groq create_sql_agent agent_invoke question table_name log
   = (Raises e, log)) ∧
  ((get_answer chat_groq create_sql_agent agent_invoke question table_name
      log).2 ≠ log →
   chat_groq = Returns () ∧ create_sql_agent = Returns ()).
Proof.
  rewrite get_answer_cases. split_and!.
  - by intros ->.
  - by intros -> ->.
  - destruct chat_groq as [[]|?|]; [|done..].
    by destruct create_sql_agent as [[]|?|].
Qed.

Lemma get_answer_needs_both_objects_witness :
  get_answer (Returns ()) (Raises (Exception (py "no such table")))
    (λ _, Returns ∅) (py "how many rows?") (py "current_data") []
  = (Raises (Exception (py "no such table")), []).
Proof.
  refine (proj1 (proj2 (get_answer_needs_both_objects (Returns ())
            (Raises (Exception (py "no such table"))) (λ _, Returns ∅)
            (py "how many rows?") (py "current_data") []
            (Exception (py "no such table")))) _ _); reflexivity.
Defined.

(** ** The session callbacks *)

Section Callbacks.
Implicit Types st : session.
Implicit Types ty key text value : pystr.

(** The dict a feedback of type [ty] goes to. *)
Lemma handle_feedback_qa key text value st :
  handle_feedback (py "qa") key text value st =
  match qa_feedback st !! key with
  | Some _ => st
  | None =>
      {| active_tab := active_tab st;
         qa_feedback := <[key := value]> (qa_feedback st);
         chart_feedback := chart_feedback st;
         prompt_history := prompt_history st; data_preview := data_preview st;
         qa_answer := qa_answer st; chart := chart st;
         prompt_generator := prompt_generator st;
         feedback_history :=
           feedback_history st
           ++ [py "Q&A Feedback: " ++ value ++ py " for question '" ++ text
               ++ py "'"];
         reuse_qa := reuse_qa st; reuse_chart := reuse_chart st |}
  end.
Proof. done. Qed.

Lemma handle_feedback_other ty key text value st :
  ty ≠ py "qa" →
  handle_feedback ty key text value st =
  match chart_feedback st !! key with
  | Some _ => st
  | None =>
      {| active_tab := active_tab st;
         qa_feedback := qa_feedback st;
         chart_feedback := <[key := value]> (chart_feedback st);
         prompt_history := prompt_history st; data_preview := data_preview st;
         qa_answer := qa_answer st; chart := chart st;
         prompt_generator := prompt_generator st;
         feedback_history :=
           feedback_history st
           ++ [py "Chart Feedback: " ++ value ++ py " for query '" ++ text
               ++ py "'"];
         reuse_qa := reuse_qa st; reuse_chart := reuse_chart st |}
  end.
Proof. intros Hty. unfold handle_feedback. by rewrite bool_decide_eq_false_2. Qed.

(** One click keeps what was rated, adds at most one rating and as many
    history lines. *)
Lemma handle_feedback_step ty key text value st :
  let st' := handle_feedback ty key text value st in
  qa_feedback st ⊆ qa_feedback st' ∧
  chart_feedback st ⊆ chart_feedback st' ∧
  feedback_history st `prefix_of` feedback_history st' ∧
  length (feedback_history st') + size (qa_feedback st)
    + size (chart_feedback st)
  = length (feedback_history st) + size (qa_feedback st')
    + size (chart_feedback st').
Proof.
  cbn zeta. destruct (decide (ty = py "qa")) as [->|Hty].
  - rewrite handle_feedback_qa.
    destruct (qa_feedback st !! key) eqn:Hk; [done|]. cbn. split_and!.
    + by apply insert_subseteq.
    + done.
    + by eexists.
    + rewrite length_app, map_size_insert_None by done. simpl. lia.
  - rewrite handle_feedback_other by done.
    destruct (chart_feedback st !! key) eqn:Hk; [done|]. cbn. split_and!.
    + done.
    + by apply insert_subseteq.
    + by eexists.
    + rewrite length_app, map_size_insert_None by done. simpl. lia.
Qed.

Lemma handle_feedbacks_snoc clicks c st :
  handle_feedbacks (clicks ++ [c]) st =
  handle_feedback (click_type c) (click_key c) (click_text c) (click_value c)
    (handle_feedbacks clicks st).
Proof. unfold handle_feedbacks. by rewrite foldl_app. Qed.

Lemma handle_feedbacks_steps clicks st :
  let st' := handle_feedbacks clicks st in
  qa_feedback st ⊆ qa_feedback st' ∧
  chart_feedback st ⊆ chart_feedback st' ∧
  feedback_history st `prefix_of` feedback_history st' ∧
  length (feedback_history st') + size (qa_feedback st)
    + size (chart_feedback st)
  = length (feedback_history st) + size (qa_feedback st')
    + size (chart_feedback st').
Proof.
  cbn zeta. induction clicks as [|c clicks IH] using rev_ind; [done|].
  rewrite handle_feedbacks_snoc.
  destruct IH as (Hqa & Hchart & Hhist & Hcount).
  destruct (handle_feedback_step (click_type c) (click_key c) (click_text c)
              (click_value c) (handle_feedbacks clicks st))
    as (Hqa' & Hchart' & Hhist' & Hcount').
  split_and!; [by etrans | by etrans | by etrans | lia].
Qed.

End Callbacks.

(** X14.  The first rating wins: a second click on the same key and of
    the same type, whatever its text and value, changes nothing. *)
Theorem handle_feedback_first_wins ty key text value text' value' st :
  handle_feedback ty key text' value' (handle_feedback ty key text value st)
  = handle_feedback ty key text value st.
Proof.
  destruct (decide (ty = py "qa")) as [->|Hty].
  - rewrite (handle_feedback_qa key text value st).
    destruct (qa_feedback st !! key) eqn:Hk.
    + rewrite handle_feedback_qa. by rewrite Hk.
    + rewrite handle_feedback_qa. cbn. by rewrite lookup_insert_eq.
  - rewrite (handle_feedback_other ty key text value st Hty).
    destruct (chart_feedback st !! key) eqn:Hk.
    + rewrite handle_feedback_other by done. by rewrite Hk.
    + rewrite handle_feedback_other by done. cbn. by rewrite lookup_insert_eq.
Qed.

(** X15.  Over any run of feedback clicks, the history gains exactly one
    line per rating recorded: the growth of [feedback_history] equals
    the growth of the two rating dicts together. *)
Theorem feedback_history_counts_ratings clicks st :
  let st' := handle_feedbacks clicks st in
  length (feedback_history st') + size (qa_feedback st)
    + size (chart_feedback st)
  = length (feedback_history st) + size (qa_feedback st')
    + size (chart_feedback st').
Proof. apply handle_feedbacks_steps. Qed.

(** X16.  Over any run of feedback clicks nothing recorded is lost or
    changed: a rating once stored keeps its value, and the history only
    grows at its end. *)
Theorem feedback_is_kept clicks st key value :
  let st' := handle_feedbacks clicks st in
  (qa_feedback st !! key = Some value → qa_feedback st' !! key = Some value) ∧
  (chart_feedback st !! key = Some value →
   chart_feedback st' !! key = Some value) ∧
  feedback_history st `prefix_of` feedback_history st'.
Proof.
  cbn zeta.
  destruct (handle_feedbacks_steps clicks st) as (Hqa & Hchart & Hhist & _).
  split_and!; [|  |done].
  - intros H. by eapply lookup_weaken.
  - intros H. by eapply lookup_weaken.
Qed.

Lemma feedback_is_kept_witness :
  let clicks :=
    [ {| click_type := py "qa"; click_key := py "qa_1"; click_text := py "q";
         click_value := py "not_helpful" |};
      {| click_type := py "chart"; click_key := py "qa_1"; click_text := py "c";
         click_value := py "good" |} ] in
  let st :=
    handle_feedback (py "qa") (py "qa_1") (py "q") (py "helpful") new_session in
  qa_feedback (handle_feedbacks clicks st) !! py "qa_1" = Some (py "helpful").
Proof.
  cbn zeta.
  refine (proj1 (feedback_is_kept _ _ (py "qa_1") (py "helpful")) _).
  reflexivity.
Defined.

(** X17.  Only the exact type [qa] goes to the Q&A ratings; every other
    type, also a misspelt one, is taken as a chart rating.  Either way
    the other dict and everything but the history stay as they were. *)
Theorem handle_feedback_routing ty key text value st :
  let st' := handle_feedback ty key text value st in
  (ty = py "qa" →
   qa_feedback st' !! key = Some (default value (qa_feedback st !! key)) ∧
   chart_feedback st' = chart_feedback st) ∧
  (ty ≠ py "qa" →
   chart_feedback st' !! key = Some (default value (chart_feedback st !! key)) ∧
   qa_feedback st' = qa_feedback st) ∧
  active_tab st' = active_tab st ∧
  prompt_history st' = prompt_history st ∧
  qa_answer st' = qa_answer st ∧
  chart st' = chart st ∧
  reuse_qa st' = reuse_qa st ∧
  reuse_chart st' = reuse_chart st.
Proof.
  cbn zeta. destruct (decide (ty = py "qa")) as [->|Hty].
  - rewrite handle_feedback_qa.
    destruct (qa_feedback st !! key) eqn:Hk; cbn; split_and!; try done.
    intros _. by rewrite lookup_insert_eq.
  - rewrite handle_feedback_other by done.
    destruct (chart_feedback st !! key) eqn:Hk; cbn; split_and!; try done.
    intros _. by rewrite lookup_insert_eq.
Qed.

Lemma handle_feedback_routing_witness :
  let st' := handle_feedback (py "QA") (py "k") (py "q") (py "helpful")
               new_session in
  chart_feedback st' !! py "k" = Some (py "helpful") ∧
  qa_feedback st' = ∅.
Proof.
  cbn zeta.
  refine (proj1 (proj2 (handle_feedback_routing (py "QA") (py "k") (py "q")
                          (py "helpful") new_session)) _).
  by vm_compute.
Defined.

(** X18.  Reusing prompts: of two reuses of the same kind the later
    text replaces the earlier one; a Q&A reuse and a later reuse of any
    other kind keep both texts, and the tab shown is the later one's. *)
Theorem handle_reuse_prompt_twice ty text1 text2 st :
  handle_reuse_prompt ty text2 (handle_reuse_prompt ty text1 st)
  = handle_reuse_prompt ty text2 st ∧
  (ty ≠ py "Q&A" →
   let st' := handle_reuse_prompt ty text2
                (handle_reuse_prompt (py "Q&A") text1 st) in
   reuse_qa st' = Some text1 ∧ reuse_chart st' = Some text2 ∧
   active_tab st' = Some (py "Charts")).
Proof.
  split.
  - unfold handle_reuse_prompt. by case_bool_decide.
  - intros Hty. unfold handle_reuse_prompt.
    by rewrite (bool_decide_eq_false_2 _ Hty).
Qed.

Lemma handle_reuse_prompt_twice_witness :
  let st' := handle_reuse_prompt (py "Chart") (py "bar chart of revenue")
               (handle_reuse_prompt (py "Q&A") (py "total revenue?")
                  new_session) in
  reuse_qa st' = Some (py "total revenue?") ∧
  reuse_chart st' = Some (py "bar chart of revenue") ∧
  active_tab st' = Some (py "Charts").
Proof.
  cbn zeta.
  refine (proj2 (handle_reuse_prompt_twice (py "Chart") (py "total revenue?")
                   (py "bar chart of revenue") new_session) _).
  by vm_compute.
Defined.

(** ** The submit branches of [main] *)

Section Submit.
Variable chat_groq create_sql_agent : outcome ().
Variable llm_invoke : pystr → outcome pystr.
Variable agent_invoke : pystr → outcome (gmap pystr pystr).
Variable run : pystr → gmap pystr value → outcome (gmap pystr value).
Implicit Types st : session.
Implicit Types query kind text : pystr.



Lemma record_prompt_frame kind text st :
  chart (record_prompt kind text st) = chart st ∧
  qa_answer (record_prompt kind text st) = qa_answer st.
Proof. unfold record_prompt. by case_bool_decide. Qed.



Lemma chart_submit_skipped submit query df st log :
  submit = false ∨ query = [] →
  chart_submit chat_groq llm_invoke run submit query df st log =
  {| ended := Returns (); state := st; requests := log; errors := [] |}.
Proof.
  intros [-> | ->]; unfold chart_submit; [done|].
  by rewrite andb_false_r.
Qed.

(** The question branch, by how the attempt went. *)
Lemma question_submit_taken query st log :
  query ≠ [] →
  let st1 := record_prompt (py "Q&A") query st in
  let answered :=
    get_answer chat_groq create_sql_agent agent_invoke query
      (py "current_data") log in
  question_submit chat_groq create_sql_agent agent_invoke true query st log =
  match answered.1 with
  | Returns answer =>
      {| ended := Returns (); state := clear_reuse_qa (store_answer answer st1);
         requests := answered.2; errors := [] |}
  | Raises e =>
      if is_Exception e then
        match str e with
        | Returns detail =>
            {| ended := Returns (); state := clear_reuse_qa st1;
               requests := answered.2;
               errors := [py "An error occurred: " ++ detail] |}
        | Raises e' =>
            {| ended := Raises e'; state := st1; requests := answered.2;
               errors := [] |}
        | Diverges =>
            {| ended := Diverges; state := st1; requests := answered.2;
               errors := [] |}
        end
      else
        {| ended := Raises e; state := st1; requests := answered.2;
           errors := [] |}
  | Diverges =>
      {| ended := Diverges; state := st1; requests := answered.2;
         errors := [] |}
  end.
Proof.
  intros Hq. cbn zeta. unfold question_submit.
  rewrite (bool_decide_eq_true_2 _ Hq). cbn [andb].
  destruct (get_answer _ _ _ _ _ _).1 as [answer|e|]; simpl; [done| |done].
  destruct (is_Exception e); [|done]. by destruct (str e).
Qed.

Lemma question_submit_skipped submit query st log :
  submit = false ∨ query = [] →
  question_submit chat_groq create_sql_agent agent_invoke submit query st log =
  {| ended := Returns (); state := st; requests := log; errors := [] |}.
Proof.
  intros [-> | ->]; unfold question_submit; [done|].
  by rewrite andb_false_r.
Qed.



End Submit.

(** X19.  The empty-text check is made here, by the caller: without a
    submit, or with an empty text, neither branch sends a request,
    shows an error or touches the session. *)
Theorem submit_needs_text
    chat_groq create_sql_agent llm_invoke agent_invoke run
    submit text df st log :
  submit = false ∨ text = [] →
  chart_submit chat_groq llm_invoke run submit text df st log =
  {| ended := Returns (); state := st; requests := log; errors := [] |} ∧
  question_submit chat_groq create_sql_agent agent_invoke submit text st log =
  {| ended := Returns (); state := st; requests := log; errors := [] |}.
Proof.
  intros H. split.
  - by apply chart_submit_skipped.
  - by apply question_submit_skipped.
Qed.

Lemma submit_needs_text_witness :
  requests
    (chart_submit (Returns ()) (λ _, Returns (py "fig = 1")) sample_run
       true [] sales new_session [])
  = [].
Proof.
  refine (f_equal requests
            (proj1 (submit_needs_text (Returns ()) (Returns ())
                      (λ _, Returns (py "fig = 1")) (λ _, Returns ∅)
                      sample_run true [] sales new_session [] _))).
  by right.
Defined.







(** X23.  When the question branch shows an error, the answer in the
    session is the earlier one; and an answer is stored only if the
    agent was asked. *)
Theorem question_error_keeps_earlier_answer
    chat_groq create_sql_agent agent_invoke submit question st log :
  let r := question_submit chat_groq create_sql_agent agent_invoke submit
             question st log in
  (errors r ≠ [] →
   ended r = Returns () ∧ qa_answer (state r) = qa_answer st ∧
   reuse_qa (state r) = None) ∧
  (qa_answer (state r) ≠ qa_answer st →
   requests r =
   log ++ [AgentInvoke (contextualized_question question (py "current_data"))]).
Proof.
  cbn zeta. destruct submit; [|by rewrite question_submit_skipped by auto].
  destruct (decide (question = [])) as [->|Hq];
    [by rewrite question_submit_skipped by auto|].
  rewrite question_submit_taken by done. cbn zeta.
  rewrite get_answer_cases.
  pose proof (record_prompt_frame (py "Q&A") question st) as [_ Hframe].
  destruct chat_groq as [[]|e|]; simpl.
  - destruct create_sql_agent as [[]|e|]; simpl.
    + destruct (agent_invoke _) as [response|e|]; simpl; [done| |done].
      destruct (is_Exception e); simpl; [|done].
      destruct (str e); simpl; [|done..].
      split; [by intros _|]. by intros _.
    + destruct (is_Exception e); simpl; [destruct (str e); simpl|];
        (split; [first [done | by intros _] | by intros []]).
    + split; [done|]. by intros [].
  - destruct (is_Exception e); simpl; [destruct (str e); simpl|];
      (split; [first [done | by intros _] | by intros []]).
  - split; [done|]. by intros [].
Qed.

Lemma question_error_keeps_earlier_answer_witness :
  let st := store_answer (py "42") new_session in
  let r := question_submit (Returns ()) (Returns ())
             (λ _, Raises (Exception (py "timeout"))) true
             (py "how many rows?") st [] in
  ended r = Returns () ∧ qa_answer (state r) = Some (py "42") ∧
  reuse_qa (state r) = None.
Proof.
  cbn zeta.
  refine (proj1 (question_error_keeps_earlier_answer (Returns ()) (Returns ())
                   (λ _, Raises (Exception (py "timeout"))) true
                   (py "how many rows?")
                   (store_answer (py "42") new_session) []) _).
  by vm_compute.
Defined.
